(** * SD card model of hal-fuzz: register encoder and block store

    Shallow embedding of [hal_fuzz/models/sd.py].

    - Python [int] is [Z] (unbounded); [bytes] is a list of [Z], every
      element in [0, 256); [str] is [string]; a [bitarray] (default,
      big-endian bit order) is a list of [bool], first bit first.
    - A Python call either returns or raises: [result A].  The methods of
      [SDModel] act on class-level state, the file system and the standard
      output: they are functions [world -> result A * world], and what was
      mutated before an exception stays mutated. *)

From Stdlib Require Import String Ascii.
From Stdlib Require Import ZArith List Bool Lia Permutation Sorted.
From Equations Require Import Equations.
Import ListNotations.
Open Scope Z_scope.

(** ** Python values and exceptions *)

Definition bytes := list Z.

Definition is_byte (b : Z) : Prop := 0 <= b < 256.
Definition is_bytes (bs : bytes) : Prop := Forall is_byte bs.

Inductive exn : Type :=
| OverflowError
| UnicodeEncodeError
| TypeError
| IndexError
| struct_error
| FileNotFoundError.

Inductive result (A : Type) : Type :=
| Ok (a : A)
| Raise (e : exn).
Arguments Ok {A} a.
Arguments Raise {A} e.

Definition bind {A B} (r : result A) (k : A -> result B) : result B :=
  match r with
  | Ok a => k a
  | Raise e => Raise e
  end.

Declare Scope py_scope.
Delimit Scope py_scope with py.
Notation "x <- e ;; k" := (bind e (fun x => k))
  (at level 61, e at next level, right associativity) : py_scope.
Open Scope py_scope.

(** [v.to_bytes(length, 'big')]: the big-endian bytes of an unsigned [v];
    OverflowError when [v] is negative or does not fit. *)
Fixpoint big_endian (length : nat) (v : Z) : bytes :=
  match length with
  | O => []
  | S n => (v / 256 ^ Z.of_nat n) mod 256 :: big_endian n v
  end.

Definition to_bytes (v : Z) (length : nat) : result bytes :=
  if (v <? 0) || (256 ^ Z.of_nat length <=? v) then Raise OverflowError
  else Ok (big_endian length v).

(** [int.from_bytes(bs, 'big')], used to read fields back in statements. *)
Definition from_bytes (bs : bytes) : Z :=
  fold_left (fun acc b => 256 * acc + b) bs 0.

(** [bytes(s, 'ascii')]: one byte per character; UnicodeEncodeError on a
    character outside 7-bit ASCII. *)
Fixpoint bytes_ascii (s : string) : result bytes :=
  match s with
  | EmptyString => Ok []
  | String c s' =>
      let code := Z.of_nat (nat_of_ascii c) in
      if 128 <=? code then Raise UnicodeEncodeError
      else (rest <- bytes_ascii s' ;; Ok (code :: rest))
  end.

(** ** libscrc *)

Module libscrc.

(** Modelled from the spec: [libscrc.crc7] belongs to the third-party
    package libscrc, whose code is not in the repository.  The spec
    describes it as the standard CRC-7 of SD/MMC framing: generator
    x^7 + x^3 + 1 (0x09), initial value 0, bits taken most significant
    first, no final xor.  This is the step for one message bit. *)
Definition crc7_bit (crc : Z) (b : bool) : Z :=
  let top := Z.testbit crc 6 in
  let crc := Z.land (Z.shiftl crc 1) 0x7F in
  if xorb top b then Z.lxor crc 0x09 else crc.

(** Modelled from the spec: the eight steps of one message byte of
    [libscrc.crc7], most significant bit first. *)
Definition crc7_byte (crc byte : Z) : Z :=
  fold_left (fun c i => crc7_bit c (Z.testbit byte i))
            [7; 6; 5; 4; 3; 2; 1; 0] crc.

(** Modelled from the spec: [libscrc.crc7(data)], the CRC-7 of SD/MMC
    over the bytes of [data], from the initial value 0. *)
Definition crc7 (data : bytes) : Z := fold_left crc7_byte data 0.

End libscrc.

(** ** Register encoder *)

Definition crc_and_last_bit (input_bytes : bytes) : result bytes :=
  let crc7 := libscrc.crc7 input_bytes in
  let trail := Z.shiftl crc7 1 in
  let trail := Z.lor trail 0x00000001 in
  to_bytes trail 1.

(** The value bound to [partial_CID] in [compute_CID]. *)
Definition partial_CID (MID OID : Z) (PNM : string) (PRV PSN RSV MDT : Z)
  : result bytes :=
  let RSV_MDT := Z.lor (Z.shiftl RSV 3) MDT in
  mid <- to_bytes MID 1 ;;
  oid <- to_bytes OID 2 ;;
  pnm <- bytes_ascii PNM ;;
  prv <- to_bytes PRV 1 ;;
  psn <- to_bytes PSN 4 ;;
  rsv_mdt <- to_bytes RSV_MDT 2 ;;
  Ok (mid ++ oid ++ pnm ++ prv ++ psn ++ rsv_mdt).

Definition compute_CID (MID OID : Z) (PNM : string) (PRV PSN RSV MDT : Z)
  : result bytes :=
  partial <- partial_CID MID OID PNM PRV PSN RSV MDT ;;
  trail <- crc_and_last_bit partial ;;
  Ok (partial ++ trail).

(** *** bitarray *)

Definition bitarray := list bool.

(** Value of a run of bits, most significant first. *)
Definition bits_value (bs : bitarray) : Z :=
  fold_left (fun acc (b : bool) => 2 * acc + (if b then 1 else 0)) bs 0.

(** [bitarray.tobytes()]: eight bits per byte, most significant first; the
    last byte is padded with zero bits. *)
Fixpoint tobytes (b : bitarray) : bytes :=
  match b with
  | [] => []
  | b7 :: b6 :: b5 :: b4 :: b3 :: b2 :: b1 :: b0 :: rest =>
      bits_value [b7; b6; b5; b4; b3; b2; b1; b0] :: tobytes rest
  | partial =>
      [bits_value (partial ++ repeat false (8 - length partial))]
  end.

(** [bitarray.frombytes(bs)] on an empty bitarray. *)
Definition byte_bits (b : Z) : bitarray :=
  map (Z.testbit b) [7; 6; 5; 4; 3; 2; 1; 0].

Definition frombytes (bs : bytes) : bitarray := flat_map byte_bits bs.

(** The slice [b[-n:]]. *)
Definition last_bits (n : nat) (b : bitarray) : bitarray :=
  skipn (length b - n) b.

Definition compute_CSD
  (CSD_STRUCTURE RSV1 TAAC NSAC TRANS_SPEED CCC READ_BL_LEN READ_BL_PARTIAL
   WRITE_BLK_MISALIGN READ_BLK_MISALIGN DSR_IMP RSV2 C_SIZE RSV3 ERASE_BLK_EN
   SECTOR_SIZE WP_GRP_SIZE WP_GRP_ENABLE RSV4 R2W_FACTOR WRITE_BL_LEN
   WRITE_BL_LEN2 RSV5 FILE_FORMAT_GRP COPY PERM_WRITE_PROTECT
   TMP_WRITE_PROTECT FILE_FORMAT RSV6 : bitarray) : result bytes :=
  let bitCSD := CSD_STRUCTURE ++
                RSV1 ++
                TAAC ++
                NSAC ++
                TRANS_SPEED ++
                CCC ++
                READ_BL_LEN ++
                READ_BL_PARTIAL ++
                WRITE_BLK_MISALIGN ++
                READ_BLK_MISALIGN ++
                DSR_IMP ++
                RSV2 ++
                C_SIZE ++
                RSV3 ++
                ERASE_BLK_EN ++
                SECTOR_SIZE ++
                WP_GRP_SIZE ++
                WP_GRP_ENABLE ++
                RSV4 ++
                R2W_FACTOR ++
                WRITE_BL_LEN ++
                WRITE_BL_LEN2 ++
                RSV5 ++
                FILE_FORMAT_GRP ++
                COPY ++
                PERM_WRITE_PROTECT ++
                TMP_WRITE_PROTECT ++
                FILE_FORMAT ++
                RSV6 in
  let partial_CSD := tobytes bitCSD in
  trail <- crc_and_last_bit partial_CSD ;;
  Ok (partial_CSD ++ trail).

(** The call [compute_CSD( *args )] with positional arguments only: Python
    binds them to the 29 parameters of the signature and raises TypeError
    on any other count. *)
Definition compute_CSD_apply (args : list bitarray) : result bytes :=
  match args with
  | [a1; a2; a3; a4; a5; a6; a7; a8; a9; a10; a11; a12; a13; a14; a15;
     a16; a17; a18; a19; a20; a21; a22; a23; a24; a25; a26; a27; a28; a29] =>
      compute_CSD a1 a2 a3 a4 a5 a6 a7 a8 a9 a10 a11 a12 a13 a14 a15
                  a16 a17 a18 a19 a20 a21 a22 a23 a24 a25 a26 a27 a28 a29
  | _ => Raise TypeError
  end.

(** Widths of the 29 fields, in the order of the signature, as the
    comments on the class attributes of [SDModel] declare them. *)
Definition CSD_field_widths : list nat :=
  [2; 6; 8; 8; 8; 12; 4; 1; 1; 1; 1; 6; 22; 1; 1; 7; 7; 1; 2; 3; 4; 1; 5;
   1; 1; 1; 1; 2; 2]%nat.

(** ** The dictionary behind [SDModel.disk]

    A Python dict keeps its entries in insertion order, and assigning to a
    key that is present keeps the entry in place.  The keys the code uses
    are integers (the addresses passed by callers) and tuples of integers
    (what [struct.unpack] returns); an integer and a tuple never compare
    equal. *)

Inductive key : Type :=
| Int (n : Z)
| Tuple (ns : list Z).

Fixpoint list_Z_eqb (xs ys : list Z) : bool :=
  match xs, ys with
  | [], [] => true
  | x :: xs', y :: ys' => (x =? y) && list_Z_eqb xs' ys'
  | _, _ => false
  end.

Definition key_eqb (k1 k2 : key) : bool :=
  match k1, k2 with
  | Int a, Int b => a =? b
  | Tuple xs, Tuple ys => list_Z_eqb xs ys
  | _, _ => false
  end.

Definition dict := list (key * bytes).

Fixpoint dict_get (d : dict) (k : key) : option bytes :=
  match d with
  | [] => None
  | (k', v) :: d' => if key_eqb k k' then Some v else dict_get d' k
  end.

(** [k in d] *)
Definition dict_contains (d : dict) (k : key) : bool :=
  match dict_get d k with
  | Some _ => true
  | None => false
  end.

(** [d[k] = v] *)
Fixpoint dict_set (d : dict) (k : key) (v : bytes) : dict :=
  match d with
  | [] => [(k, v)]
  | (k', v') :: d' =>
      if key_eqb k k' then (k', v) :: d' else (k', v') :: dict_set d' k v
  end.

Definition dict_keys (d : dict) : list key := map fst d.
Definition dict_items (d : dict) : list (key * bytes) := d.

(** ** struct *)

(** [struct.pack('>I', k)]: four bytes, big-endian; struct.error unless
    [k] is an integer in [0, 2^32). *)
Definition struct_pack_I (k : key) : result bytes :=
  match k with
  | Int n =>
      if (0 <=? n) && (n <? 2 ^ 32) then Ok (big_endian 4 n)
      else Raise struct_error
  | Tuple _ => Raise struct_error
  end.

(** [struct.unpack('>I', bs)]: a tuple of one integer; struct.error unless
    [bs] has exactly four bytes. *)
Definition struct_unpack_I (bs : bytes) : result key :=
  if (length bs =? 4)%nat then Ok (Tuple [from_bytes bs])
  else Raise struct_error.

(** ** list.sort on the keys

    Integers are ordered by value and tuples lexicographically; comparing
    an integer with a tuple raises TypeError, which any sort of a list
    that holds both must do. *)

Definition is_Int (k : key) : bool :=
  match k with Int _ => true | Tuple _ => false end.

Fixpoint list_Z_leb (xs ys : list Z) : bool :=
  match xs, ys with
  | [], _ => true
  | _ :: _, [] => false
  | x :: xs', y :: ys' => (x <? y) || ((x =? y) && list_Z_leb xs' ys')
  end.

Definition key_leb (k1 k2 : key) : bool :=
  match k1, k2 with
  | Int a, Int b => a <=? b
  | Tuple xs, Tuple ys => list_Z_leb xs ys
  | _, _ => false
  end.

Fixpoint insert_key (k : key) (l : list key) : list key :=
  match l with
  | [] => [k]
  | x :: l' => if key_leb k x then k :: l else x :: insert_key k l'
  end.

Fixpoint sorted_keys (l : list key) : list key :=
  match l with
  | [] => []
  | k :: l' => insert_key k (sorted_keys l')
  end.

Definition list_sort (l : list key) : result (list key) :=
  if forallb is_Int l || forallb (fun k => negb (is_Int k)) l
  then Ok (sorted_keys l)
  else Raise TypeError.

(** [range(a, b)] *)
Definition range (a b : Z) : list Z :=
  map (fun i => a + Z.of_nat i) (seq 0 (Z.to_nat (b - a))).

(** ** re and hex *)

Definition hex_digit (n : Z) : ascii :=
  if n <? 10 then ascii_of_nat (Z.to_nat (48 + n))
  else ascii_of_nat (Z.to_nat (97 + (n - 10))).

(** [bytes.hex()] *)
Fixpoint bytes_hex (bs : bytes) : string :=
  match bs with
  | [] => EmptyString
  | b :: bs' => String (hex_digit (b / 16)) (String (hex_digit (b mod 16)) (bytes_hex bs'))
  end.

Definition newline : ascii := ascii_of_nat 10.

(** What [.] matches: any character, but a newline only under DOTALL. *)
Definition dot_matches (dotall : bool) (c : ascii) : bool :=
  dotall || negb (Ascii.eqb c newline).

(** [re.sub("(.{n})", "\\1" + ins, s, 0, flags)] for [n >= 1]: every
    leftmost run of [n] matching characters is followed by [ins].
    [pending] holds the characters of the attempt in progress and [k] how
    many it still needs; an attempt that meets a character [.] does not
    match, or the end of the string, is copied unchanged. *)
Fixpoint re_sub_dots (n : nat) (dotall : bool) (ins : string)
         (pending : string) (k : nat) (s : string) : string :=
  match s with
  | EmptyString => pending
  | String c s' =>
      if dot_matches dotall c then
        match k with
        | S (S k') =>
            re_sub_dots n dotall ins (pending ++ String c EmptyString) (S k') s'
        | _ =>
            (pending ++ String c EmptyString ++ ins
               ++ re_sub_dots n dotall ins EmptyString n s')%string
        end
      else
        (pending ++ String c EmptyString
           ++ re_sub_dots n dotall ins EmptyString n s')%string
  end.

Definition re_sub (n : nat) (dotall : bool) (ins : string) (s : string) : string :=
  re_sub_dots n dotall ins EmptyString n s.

(** ** The state the methods act on *)

Record world : Type := mkWorld {
  disk : dict;                      (* the class attribute [SDModel.disk] *)
  fs : string -> option bytes;      (* content of the file at each path *)
  stdout : string                   (* what [print] has written *)
}.

Definition M (A : Type) : Type := world -> result A * world.

Definition ret {A} (a : A) : M A := fun w => (Ok a, w).

Definition lift {A} (r : result A) : M A := fun w => (r, w).

Definition bindM {A B} (m : M A) (k : A -> M B) : M B :=
  fun w =>
    match m w with
    | (Ok a, w') => k a w'
    | (Raise e, w') => (Raise e, w')
    end.

Notation "x <~ m ;; k" := (bindM m (fun x => k))
  (at level 61, m at next level, right associativity) : py_scope.

(** [for x in l: body(x)] *)
Fixpoint for_each {X} (l : list X) (body : X -> M unit) : M unit :=
  match l with
  | [] => ret tt
  | x :: l' => _ <~ body x ;; for_each l' body
  end.

Definition set_disk (d : dict) (w : world) : world :=
  mkWorld d (fs w) (stdout w).

Definition set_file (path : string) (content : bytes) (w : world) : world :=
  mkWorld (disk w)
          (fun p => if String.eqb p path then Some content else fs w p)
          (stdout w).

(** [open(path, 'wb')]: the file is created or truncated.  The model has
    one flat, writable directory, so opening for writing succeeds, and
    what is written is in the file at once. *)
Definition open_wb (path : string) : M unit :=
  fun w => (Ok tt, set_file path [] w).

(** [f.write(data)] on the file opened at [path] *)
Definition file_write (path : string) (data : bytes) : M unit :=
  fun w =>
    match fs w path with
    | Some old => (Ok tt, set_file path (old ++ data) w)
    | None => (Ok tt, set_file path data w)
    end.

(** [open(path, 'rb')] followed by reads: the content still to be read. *)
Definition open_rb (path : string) : M bytes :=
  fun w =>
    match fs w path with
    | Some content => (Ok content, w)
    | None => (Raise FileNotFoundError, w)
    end.

(** [print(s)] *)
Definition print (s : string) : M unit :=
  fun w => (Ok tt, mkWorld (disk w) (fs w)
                           (stdout w ++ s ++ String newline EmptyString)%string).

Definition index_first (l : list key) : result key :=
  match l with
  | [] => Raise IndexError
  | k :: _ => Ok k
  end.

Fixpoint index_last (l : list key) : result key :=
  match l with
  | [] => Raise IndexError
  | [k] => Ok k
  | _ :: l' => index_last l'
  end.

(** [range(a, b + 1)] on two keys: TypeError unless both are integers. *)
Definition range_to_inclusive (a b : key) : result (list Z) :=
  match b, a with
  | Int l, Int f => Ok (range f (l + 1))
  | _, _ => Raise TypeError
  end.

(** Case analysis on a value that keeps the equation. *)
Definition inspect {A : Type} (x : A) : {y : A | x = y} := exist _ x eq_refl.

(** [f.read(n)] on the bytes still to be read: the next [n] bytes, fewer
    at the end of the file, and what stays to be read after it. *)
Definition file_read (n : nat) (data : bytes) : bytes := firstn n data.
Definition file_rest (n : nat) (data : bytes) : bytes := skipn n data.
Arguments file_read : simpl never.
Arguments file_rest : simpl never.

(** The loop of [import_from_dictionary] on the bytes still to be read.
    [f.readable()] is true of every file opened for reading, so the loop
    ends only when [struct.unpack] raises on a short read; the entries
    stored before that stay in the dictionary. *)
Equations? import_records (data : bytes) (d : dict) : result unit * dict
  by wf (length data) lt :=
  import_records data d with inspect (struct_unpack_I (file_read 4 data)) := {
    | exist _ (Ok addr) _ =>
        import_records (file_rest 512 (file_rest 4 data))
                       (dict_set d addr (file_read 512 (file_rest 4 data)));
    | exist _ (Raise e) _ => (Raise e, d) }.
Proof.
  unfold struct_unpack_I, file_read in e.
  destruct (length (firstn 4 data) =? 4)%nat eqn:E; [|discriminate].
  apply Nat.eqb_eq in E. rewrite length_firstn in E.
  unfold file_rest. rewrite !length_skipn. lia.
Qed.

Module SDModel.

Definition CARD_VERSION : Z := 0x00000001.
Definition CARD_TYPE : Z := 0x00000001.
Definition RCA : Z := 0x1234.
Definition BLOCK_SIZE : Z := 512.

Definition MID : Z := 0x41.
Definition OID : Z := 0x3432.
Definition PNM : string := "SDCIT".
Definition PRV : Z := 0x30.
Definition PSN : Z := 0x12345678.
Definition RSV : Z := 0x0.
Definition MDT : Z := 0x112.

(** [b = bitarray(); b.frombytes(v.to_bytes(n, 'big'))] *)
Definition bits_of (v : Z) (n : nat) : bitarray :=
  match to_bytes v n with
  | Ok bs => frombytes bs
  | Raise _ => []
  end.

Definition CSD_STRUCTURE : bitarray := [false; true].
Definition RSV1 : bitarray := repeat false 6.
Definition TAAC : bitarray := bits_of 0x0e 1.
Definition NSAC : bitarray := bits_of 0x00 1.
Definition TRANS_SPEED : bitarray := bits_of 0x5a 1.
Definition CCC : bitarray := last_bits 12 (bits_of 0x5b5 2).
Definition READ_BL_LEN : bitarray := last_bits 4 (bits_of 0x9 1).
Definition READ_BL_PARTIAL : bitarray := [false].
Definition WRITE_BLK_MISALIGN : bitarray := [false].
Definition READ_BLK_MISALIGN : bitarray := [false].
Definition DSR_IMP : bitarray := [false].
Definition RSV2 : bitarray := repeat false 6.
Definition C_SIZE : bitarray := last_bits 22 (bits_of 0x00127F 3).
Definition RSV3 : bitarray := [false].
Definition ERASE_BLK_EN : bitarray := [true].
Definition SECTOR_SIZE : bitarray := last_bits 7 (bits_of 0x7f 1).
Definition WP_GRP_SIZE : bitarray := repeat false 7.
Definition WP_GRP_ENABLE : bitarray := [false].
Definition RSV4 : bitarray := [false; false].
Definition R2W_FACTOR : bitarray := last_bits 3 (bits_of 0x02 1).
Definition WRITE_BL_LEN : bitarray := last_bits 4 (bits_of 0x09 1).
Definition WRITE_BL_LEN2 : bitarray := [false].
Definition RSV5 : bitarray := repeat false 5.
Definition FILE_FORMAT_GRP : bitarray := [false].
Definition COPY : bitarray := [false].
Definition PERM_WRITE_PROTECT : bitarray := [false].
Definition TMP_WRITE_PROTECT : bitarray := [false].
Definition FILE_FORMAT : bitarray := [false; false].
Definition RSV6 : bitarray := [false; false].

Definition CSD : result bytes :=
  compute_CSD CSD_STRUCTURE RSV1 TAAC NSAC TRANS_SPEED CCC READ_BL_LEN
              READ_BL_PARTIAL WRITE_BLK_MISALIGN READ_BLK_MISALIGN DSR_IMP
              RSV2 C_SIZE RSV3 ERASE_BLK_EN SECTOR_SIZE WP_GRP_SIZE
              WP_GRP_ENABLE RSV4 R2W_FACTOR WRITE_BL_LEN WRITE_BL_LEN2
              RSV5 FILE_FORMAT_GRP COPY PERM_WRITE_PROTECT
              TMP_WRITE_PROTECT FILE_FORMAT RSV6.

Definition CID : result bytes := compute_CID MID OID PNM PRV PSN RSV MDT.

(** [disk = {}] *)
Definition empty_disk : dict := [].

Definition write_block (addr : key) (content : bytes) : M unit :=
  fun w => (Ok tt, set_disk (dict_set (disk w) addr content) w).

Definition read_block (addr : key) : M bytes :=
  fun w =>
    let block := repeat 0 512 in
    let block :=
      if dict_contains (disk w) addr then
        match dict_get (disk w) addr with
        | Some stored => stored
        | None => block
        end
      else block in
    (Ok block, w).

Definition get_block_count : M Z :=
  fun w => (Ok (Z.of_nat (length (dict_keys (disk w)))), w).

Definition get_block_list : M (list key) :=
  fun w =>
    (Ok (fold_left (fun blocks addr => blocks ++ [addr])
                   (dict_keys (disk w)) []), w).

Definition print_block (addr : key) : M unit :=
  fun w =>
    if dict_contains (disk w) addr then
      match dict_get (disk w) addr with
      | Some block =>
          let block_string :=
            re_sub 32 true (String newline EmptyString) (bytes_hex block) in
          let block_string := re_sub 2 false " " block_string in
          print block_string w
      | None => (Ok tt, w)
      end
    else print "This block does not exist!" w.

Definition export_to_file (name : string) : M unit :=
  let path := ("./" ++ name)%string in
  _ <~ open_wb path ;;
  block_list <~ get_block_list ;;
  block_list <~ lift (list_sort block_list) ;;
  first_block <~ lift (index_first block_list) ;;
  last_block <~ lift (index_last block_list) ;;
  addrs <~ lift (range_to_inclusive first_block last_block) ;;
  for_each addrs (fun i =>
    block <~ read_block (Int i) ;;
    file_write path block).

Definition export_as_dictionary (name : string) : M unit :=
  let path := ("./" ++ name)%string in
  _ <~ open_wb path ;;
  items <~ (fun w => (Ok (dict_items (disk w)), w)) ;;
  for_each items (fun '(k, v) =>
    packed <~ lift (struct_pack_I k) ;;
    _ <~ file_write path packed ;;
    file_write path v).

Definition import_from_dictionary (name : string) : M unit :=
  let path := ("./" ++ name)%string in
  data <~ open_rb path ;;
  fun w =>
    let (r, d) := import_records data (disk w) in
    (r, set_disk d w).

End SDModel.

(** ** Sequences of calls

    A caller issues the methods one after the other; a call that raises
    leaves the state as it was when the exception left the method, and the
    caller may go on. *)

Inductive op : Type :=
| WriteBlock (addr : key) (content : bytes)
| ReadBlock (addr : key)
| GetBlockCount
| GetBlockList
| PrintBlock (addr : key)
| ExportToFile (name : string)
| ExportAsDictionary (name : string)
| ImportFromDictionary (name : string).

Definition exec (o : op) (w : world) : world :=
  match o with
  | WriteBlock addr content => snd (SDModel.write_block addr content w)
  | ReadBlock addr => snd (SDModel.read_block addr w)
  | GetBlockCount => snd (SDModel.get_block_count w)
  | GetBlockList => snd (SDModel.get_block_list w)
  | PrintBlock addr => snd (SDModel.print_block addr w)
  | ExportToFile name => snd (SDModel.export_to_file name w)
  | ExportAsDictionary name => snd (SDModel.export_as_dictionary name w)
  | ImportFromDictionary name => snd (SDModel.import_from_dictionary name w)
  end.

Definition run (ops : list op) (w : world) : world :=
  fold_left (fun w o => exec o w) ops w.

(** The state when the class has just been defined. *)
Definition initial_world (files : string -> option bytes) : world :=
  mkWorld SDModel.empty_disk files EmptyString.

Definition no_files : string -> option bytes := fun _ => None.

(** ** Vocabulary of the statements *)

(** The calls that assign into [SDModel.disk]. *)
Definition writes_disk (o : op) : bool :=
  match o with
  | WriteBlock _ _ | ImportFromDictionary _ => true
  | _ => false
  end.

(** The calls that can assign to the key [addr]: a [write_block] at that
    key and, for a tuple, an import (which stores under tuples only). *)
Definition may_write (addr : key) (o : op) : bool :=
  match o with
  | WriteBlock a _ => key_eqb a addr
  | ImportFromDictionary _ => negb (is_Int addr)
  | _ => false
  end.

Definition never_written (addr : key) (ops : list op) : bool :=
  forallb (fun o => negb (may_write addr o)) ops.

(** A computation that leaves [SDModel.disk] as it found it, also when
    it raises. *)
Definition keeps_disk {A} (m : M A) : Prop :=
  forall w, disk (snd (m w)) = disk w.

(** What a read of [addr] gives on the dictionary [d]. *)
Definition stored_or_zeros (d : dict) (addr : key) : bytes :=
  match dict_get d addr with
  | Some block => block
  | None => repeat 0 512
  end.

(** Two dictionaries hold the same mapping. *)
Definition same_mapping (d1 d2 : dict) : Prop :=
  forall k, dict_get d1 k = dict_get d2 k.

(** The record [export_as_dictionary] writes for an entry, and the file
    it writes for a dictionary whose keys all pack. *)
Definition record_bytes (kv : key * bytes) : bytes :=
  match struct_pack_I (fst kv) with
  | Ok packed => packed ++ snd kv
  | Raise _ => []
  end.

Definition serialized (d : dict) : bytes := concat (map record_bytes d).

(** An entry as the data model has it: an unsigned 32-bit address and a
    block of 512 bytes. *)
Definition well_formed_entry (kv : key * bytes) : Prop :=
  exists n, fst kv = Int n /\ 0 <= n < 2 ^ 32 /\ length (snd kv) = 512%nat.

(** The key under which [import_from_dictionary] stores the record of the
    address [n]: the tuple [(n,)]. *)
Definition imported_key (k : key) : key :=
  match k with
  | Int n => Tuple [n]
  | Tuple ns => Tuple ns
  end.

Definition imported (d : dict) (into : dict) : dict :=
  fold_left (fun acc kv => dict_set acc (imported_key (fst kv)) (snd kv)) d into.

(** The slice [image[offset : offset + 512]]. *)
Definition slice512 (image : bytes) (offset : Z) : bytes :=
  firstn 512 (skipn (Z.to_nat offset) image).

(** ** Vocabulary of the further properties *)

(** An entry [struct.pack('>I', _)] accepts: an integer address in
    [0, 2^32); the block may have any length. *)
Definition addressable (kv : key * bytes) : Prop :=
  exists n, fst kv = Int n /\ 0 <= n < 2 ^ 32.

(** A dictionary with every integer key [n] replaced by the tuple [(n,)]. *)
Definition retupled (d : dict) : dict :=
  map (fun kv => (imported_key (fst kv), snd kv)) d.

(** The records [import_from_dictionary] takes from the bytes of a file.
    The file is cut every 516 bytes; a piece of four bytes or more gives
    one record, whose key is the tuple of the big-endian value of the
    first four bytes and whose block is the rest of the piece, up to 512
    bytes; a last piece of fewer than four bytes gives none. *)
Definition file_records (data : bytes) : list (key * bytes) :=
  map (fun i =>
         let piece := firstn 516 (skipn (516 * i) data) in
         (Tuple [from_bytes (firstn 4 piece)], skipn 4 piece))
      (seq 0 ((length data + 512) / 516)).

(** The assignments [d[k] = v] for the records, in their order. *)
Definition store_all (records : list (key * bytes)) (d : dict) : dict :=
  fold_left (fun acc kv => dict_set acc (fst kv) (snd kv)) records d.

(** [w'] differs from [w] at most in the store and in the file at [path]. *)
Definition only_file (path : string) (w w' : world) : Prop :=
  stdout w' = stdout w /\ forall p, p <> path -> fs w' p = fs w p.

(** What [export_to_file] answers on the dictionary [d]. *)
Definition export_to_file_outcome (d : dict) : result unit :=
  match d with
  | [] => Raise IndexError
  | _ :: _ => if forallb is_Int (dict_keys d) then Ok tt else Raise TypeError
  end.

(** A block as lines of text: two lowercase hexadecimal digits and a space
    for every byte, and a newline after every sixteenth byte.  [col] is the
    number of bytes already on the current line. *)
Fixpoint hex_dump (col : nat) (bs : bytes) : string :=
  match bs with
  | [] => EmptyString
  | b :: bs' =>
      String (hex_digit (b / 16)) (String (hex_digit (b mod 16)) (String " "
        (if (col =? 15)%nat then String newline (hex_dump 0 bs')
         else hex_dump (S col) bs')))
  end.

(** The same without the spaces: what the first [re.sub] of [print_block]
    makes of [block.hex()]. *)
Fixpoint hex_lines (col : nat) (bs : bytes) : string :=
  match bs with
  | [] => EmptyString
  | b :: bs' =>
      String (hex_digit (b / 16)) (String (hex_digit (b mod 16))
        (if (col =? 15)%nat then String newline (hex_lines 0 bs')
         else hex_lines (S col) bs'))
  end.

(** Blocks used in the examples. *)
Definition AA512 : bytes := repeat 0xAA 512.
Definition BB512 : bytes := repeat 0xBB 512.

(** * Properties *)

(** ** Integers and bytes *)

Lemma big_endian_length n v : length (big_endian n v) = n.
Proof. induction n; simpl; congruence. Qed.

Lemma big_endian_is_bytes n v : is_bytes (big_endian n v).
Proof.
  induction n; simpl; constructor; auto.
  unfold is_byte. apply Z.mod_pos_bound. lia.
Qed.

Lemma to_bytes_ok v n :
  0 <= v < 256 ^ Z.of_nat n -> to_bytes v n = Ok (big_endian n v).
Proof.
  intros [Hlo Hhi]. unfold to_bytes.
  destruct (v <? 0) eqn:E1; [apply Z.ltb_lt in E1; lia|].
  destruct (256 ^ Z.of_nat n <=? v) eqn:E2; [apply Z.leb_le in E2; lia|].
  reflexivity.
Qed.



Lemma from_bytes_cons_aux bs : forall acc,
  fold_left (fun a b => 256 * a + b) bs acc
  = acc * 256 ^ Z.of_nat (length bs) + fold_left (fun a b => 256 * a + b) bs 0.
Proof.
  induction bs as [|b bs IH]; intros acc.
  - simpl. lia.
  - cbn [fold_left length]. rewrite IH, (IH (256 * 0 + b)).
    rewrite Nat2Z.inj_succ, Z.pow_succ_r by lia. lia.
Qed.

Lemma from_bytes_cons b bs :
  from_bytes (b :: bs) = b * 256 ^ Z.of_nat (length bs) + from_bytes bs.
Proof.
  unfold from_bytes. cbn [fold_left].
  rewrite from_bytes_cons_aux. lia.
Qed.

Lemma from_bytes_big_endian_mod n v :
  0 <= v -> from_bytes (big_endian n v) = v mod 256 ^ Z.of_nat n.
Proof.
  intros Hv. induction n as [|n IH].
  - simpl. rewrite Z.mod_1_r. reflexivity.
  - cbn [big_endian]. rewrite from_bytes_cons, big_endian_length, IH.
    rewrite Nat2Z.inj_succ, Z.pow_succ_r by lia.
    set (p := 256 ^ Z.of_nat n). assert (0 < p) by (apply Z.pow_pos_nonneg; lia).
    rewrite (Z.mul_comm 256 p), Z.rem_mul_r by lia. lia.
Qed.

Lemma from_bytes_big_endian n v :
  0 <= v < 256 ^ Z.of_nat n -> from_bytes (big_endian n v) = v.
Proof.
  intros H. rewrite from_bytes_big_endian_mod by lia.
  apply Z.mod_small. exact H.
Qed.

Lemma bytes_ascii_length s bs :
  bytes_ascii s = Ok bs -> length bs = String.length s.
Proof.
  revert bs. induction s as [|c s IH]; simpl; intros bs H.
  - inversion H. reflexivity.
  - destruct (128 <=? Z.of_nat (nat_of_ascii c)); [discriminate|].
    destruct (bytes_ascii s) as [rest|]; simpl in H; [|discriminate].
    inversion H. simpl. f_equal. auto.
Qed.

Lemma bytes_ascii_is_bytes s bs : bytes_ascii s = Ok bs -> is_bytes bs.
Proof.
  revert bs. induction s as [|c s IH]; simpl; intros bs H.
  - inversion H. constructor.
  - destruct (128 <=? Z.of_nat (nat_of_ascii c)) eqn:E; [discriminate|].
    destruct (bytes_ascii s) as [rest|]; simpl in H; [|discriminate].
    inversion H. constructor; [|apply IH; reflexivity].
    apply Z.leb_gt in E. unfold is_byte. lia.
Qed.

(** ** CRC-7 *)

Lemma crc7_bit_range crc b : 0 <= libscrc.crc7_bit crc b < 128.
Proof.
  unfold libscrc.crc7_bit.
  assert (Hm : 0 <= Z.land (Z.shiftl crc 1) 127 < 128).
  { change 127 with (Z.ones 7). rewrite Z.land_ones by lia.
    apply Z.mod_pos_bound. reflexivity. }
  destruct (xorb (Z.testbit crc 6) b); [|exact Hm].
  set (y := Z.land (Z.shiftl crc 1) 127) in *.
  assert (Hnn : 0 <= Z.lxor y 9) by (apply Z.lxor_nonneg; lia).
  split; [exact Hnn|].
  destruct (Z.eq_dec (Z.lxor y 9) 0) as [->|Hnz]; [lia|].
  apply (Z.log2_lt_pow2 (Z.lxor y 9) 7); [lia|].
  pose proof (Z.log2_lxor y 9 ltac:(lia) ltac:(lia)) as Hl.
  assert (Z.log2 y < 7).
  { destruct (Z.eq_dec y 0) as [->|]; [reflexivity|].
    apply Z.log2_lt_pow2; lia. }
  change (Z.log2 9) with 3 in Hl. lia.
Qed.

Lemma crc7_byte_range crc byte :
  0 <= crc < 128 -> 0 <= libscrc.crc7_byte crc byte < 128.
Proof.
  intros _. unfold libscrc.crc7_byte. cbn [fold_left]. apply crc7_bit_range.
Qed.

Lemma crc7_range data : 0 <= libscrc.crc7 data < 128.
Proof.
  unfold libscrc.crc7.
  assert (H : forall crc, 0 <= crc < 128 ->
                          0 <= fold_left libscrc.crc7_byte data crc < 128).
  { induction data as [|b data IH]; intros crc Hc; simpl; [exact Hc|].
    apply IH, crc7_byte_range, Hc. }
  apply H. lia.
Qed.

Lemma lor_shiftl1_1 c : Z.lor (Z.shiftl c 1) 1 = 2 * c + 1.
Proof.
  rewrite Z.shiftl_mul_pow2 by lia. change (2 ^ 1) with 2.
  rewrite (Z.mul_comm c 2).
  pose proof (Z.add_lor_land (2 * c) 1) as H.
  assert (Hl : Z.land (2 * c) 1 = 0).
  { change 1 with (Z.ones 1) at 1. rewrite Z.land_ones by lia.
    change (2 ^ 1) with 2. rewrite Z.mul_comm. apply Z.mod_mul. lia. }
  lia.
Qed.

Lemma crc_and_last_bit_ok payload :
  crc_and_last_bit payload = Ok [2 * libscrc.crc7 payload + 1].
Proof.
  unfold crc_and_last_bit. cbv zeta. rewrite lor_shiftl1_1.
  pose proof (crc7_range payload) as Hr.
  rewrite to_bytes_ok by (change (256 ^ Z.of_nat 1) with 256; lia).
  cbn [big_endian]. change (256 ^ Z.of_nat 0) with 1.
  rewrite Z.div_1_r, Z.mod_small by lia. reflexivity.
Qed.

(** ** compute_CID *)

Lemma RSV_MDT_range RSV MDT :
  0 <= RSV <= 7 -> 0 <= MDT <= 4095 ->
  0 <= Z.lor (Z.shiftl RSV 3) MDT < 4096.
Proof.
  intros HR HM.
  assert (Hs : Z.shiftl RSV 3 = RSV * 8)
    by (rewrite Z.shiftl_mul_pow2 by lia; reflexivity).
  assert (Hnn : 0 <= Z.lor (Z.shiftl RSV 3) MDT)
    by (apply Z.lor_nonneg; lia).
  split; [exact Hnn|].
  destruct (Z.eq_dec (Z.lor (Z.shiftl RSV 3) MDT) 0) as [->|Hnz]; [lia|].
  apply (Z.log2_lt_pow2 _ 12); [lia|].
  rewrite Z.log2_lor by lia.
  assert (Z.log2 (Z.shiftl RSV 3) < 12).
  { destruct (Z.eq_dec RSV 0) as [->|]; [reflexivity|].
    apply Z.log2_lt_pow2; lia. }
  assert (Z.log2 MDT < 12).
  { destruct (Z.eq_dec MDT 0) as [->|]; [reflexivity|].
    apply Z.log2_lt_pow2; lia. }
  lia.
Qed.

Lemma partial_CID_ok MID OID PNM PRV PSN RSV MDT pnm :
  0 <= MID <= 255 -> 0 <= OID <= 65535 -> bytes_ascii PNM = Ok pnm ->
  0 <= PRV <= 255 -> 0 <= PSN < 2 ^ 32 -> 0 <= RSV <= 7 -> 0 <= MDT <= 4095 ->
  partial_CID MID OID PNM PRV PSN RSV MDT
  = Ok (big_endian 1 MID ++ big_endian 2 OID ++ pnm ++ big_endian 1 PRV
        ++ big_endian 4 PSN ++ big_endian 2 (Z.lor (Z.shiftl RSV 3) MDT)).
Proof.
  intros HMID HOID HPNM HPRV HPSN HRSV HMDT.
  pose proof (RSV_MDT_range RSV MDT HRSV HMDT) as HRM.
  unfold partial_CID. cbv zeta.
  rewrite (to_bytes_ok MID 1) by (change (256 ^ Z.of_nat 1) with 256; lia).
  rewrite (to_bytes_ok OID 2) by (change (256 ^ Z.of_nat 2) with 65536; lia).
  rewrite HPNM.
  rewrite (to_bytes_ok PRV 1) by (change (256 ^ Z.of_nat 1) with 256; lia).
  rewrite (to_bytes_ok PSN 4) by (change (256 ^ Z.of_nat 4) with (2 ^ 32); lia).
  rewrite (to_bytes_ok _ 2) by (change (256 ^ Z.of_nat 2) with 65536; lia).
  reflexivity.
Qed.

Lemma compute_CID_ok MID OID PNM PRV PSN RSV MDT pnm :
  0 <= MID <= 255 -> 0 <= OID <= 65535 -> bytes_ascii PNM = Ok pnm ->
  0 <= PRV <= 255 -> 0 <= PSN < 2 ^ 32 -> 0 <= RSV <= 7 -> 0 <= MDT <= 4095 ->
  let partial := big_endian 1 MID ++ big_endian 2 OID ++ pnm
                 ++ big_endian 1 PRV ++ big_endian 4 PSN
                 ++ big_endian 2 (Z.lor (Z.shiftl RSV 3) MDT) in
  compute_CID MID OID PNM PRV PSN RSV MDT
  = Ok (partial ++ [2 * libscrc.crc7 partial + 1]).
Proof.
  intros HMID HOID HPNM HPRV HPSN HRSV HMDT partial.
  unfold compute_CID.
  rewrite (partial_CID_ok _ _ _ _ _ _ _ pnm) by assumption.
  cbn [bind]. fold partial. rewrite crc_and_last_bit_ok. reflexivity.
Qed.

(** C1. On valid CID fields [compute_CID] returns, its value has exactly
    16 bytes, and the low bit of the last byte is 1.  The function takes no
    state and returns none: its value, the only thing it produces, is a
    function of the seven fields. *)
Theorem compute_CID_16_bytes MID OID PNM PRV PSN RSV MDT pnm :
  0 <= MID <= 255 -> 0 <= OID <= 65535 ->
  bytes_ascii PNM = Ok pnm -> length pnm = 5%nat ->
  0 <= PRV <= 255 -> 0 <= PSN < 2 ^ 32 -> 0 <= RSV <= 7 -> 0 <= MDT <= 4095 ->
  exists CID last_byte,
    compute_CID MID OID PNM PRV PSN RSV MDT = Ok CID /\
    length CID = 16%nat /\
    is_bytes CID /\
    nth_error CID 15 = Some last_byte /\
    Z.testbit last_byte 0 = true.
Proof.
  intros HMID HOID HPNM Hlen HPRV HPSN HRSV HMDT.
  pose proof (compute_CID_ok _ _ _ _ _ _ _ pnm HMID HOID HPNM HPRV HPSN HRSV HMDT)
    as Hc. cbv zeta in Hc.
  set (partial := big_endian 1 MID ++ big_endian 2 OID ++ pnm
                  ++ big_endian 1 PRV ++ big_endian 4 PSN
                  ++ big_endian 2 (Z.lor (Z.shiftl RSV 3) MDT)) in *.
  assert (Hpl : length partial = 15%nat).
  { unfold partial. rewrite !length_app, !big_endian_length, Hlen. reflexivity. }
  pose proof (crc7_range partial) as Hr.
  exists (partial ++ [2 * libscrc.crc7 partial + 1]), (2 * libscrc.crc7 partial + 1).
  split; [exact Hc|].
  split; [rewrite length_app, Hpl; reflexivity|].
  split.
  { apply Forall_app. split.
    - unfold partial. repeat (apply Forall_app; split);
        try apply big_endian_is_bytes.
      exact (bytes_ascii_is_bytes _ _ HPNM).
    - constructor; [unfold is_byte; lia|constructor]. }
  split.
  { rewrite nth_error_app2 by lia. rewrite Hpl. reflexivity. }
  apply Z.testbit_odd_0.
Qed.

Lemma compute_CID_16_bytes_witness :
  exists CID last_byte,
    compute_CID SDModel.MID SDModel.OID SDModel.PNM SDModel.PRV SDModel.PSN
                SDModel.RSV SDModel.MDT = Ok CID /\
    length CID = 16%nat /\
    is_bytes CID /\
    nth_error CID 15 = Some last_byte /\
    Z.testbit last_byte 0 = true.
Proof.
  apply (compute_CID_16_bytes SDModel.MID SDModel.OID SDModel.PNM SDModel.PRV
           SDModel.PSN SDModel.RSV SDModel.MDT [83; 68; 67; 73; 84]);
    solve [ reflexivity | vm_compute; split; discriminate
          | vm_compute; split; [discriminate | reflexivity] ].
Defined.

(** C9. A product name whose ASCII encoding has [n <> 5] bytes is not
    rejected: [compute_CID] returns, and its value has [11 + n] bytes, which
    is not 16. *)
Theorem compute_CID_misshapen MID OID PNM PRV PSN RSV MDT pnm :
  0 <= MID <= 255 -> 0 <= OID <= 65535 ->
  bytes_ascii PNM = Ok pnm -> length pnm <> 5%nat ->
  0 <= PRV <= 255 -> 0 <= PSN < 2 ^ 32 -> 0 <= RSV <= 7 -> 0 <= MDT <= 4095 ->
  exists CID,
    compute_CID MID OID PNM PRV PSN RSV MDT = Ok CID /\
    length CID = (11 + length pnm)%nat /\
    length CID <> 16%nat.
Proof.
  intros HMID HOID HPNM Hlen HPRV HPSN HRSV HMDT.
  pose proof (compute_CID_ok _ _ _ _ _ _ _ pnm HMID HOID HPNM HPRV HPSN HRSV HMDT)
    as Hc. cbv zeta in Hc.
  eexists. split; [exact Hc|].
  rewrite !length_app, !big_endian_length. cbn [length]. lia.
Qed.

Lemma compute_CID_misshapen_witness :
  exists CID,
    compute_CID 0x41 0x3432 "SD" 0x30 0x12345678 0 0x112 = Ok CID /\
    length CID = (11 + length [83; 68])%nat /\
    length CID <> 16%nat.
Proof.
  apply (compute_CID_misshapen 0x41 0x3432 "SD" 0x30 0x12345678 0 0x112 [83; 68]);
    solve [ reflexivity | vm_compute; split; discriminate
          | vm_compute; split; [discriminate | reflexivity]
          | simpl; lia ].
Defined.




(** C2. The trailer of a payload is the single byte
    [(CRC7(payload) << 1) | 1], and equal payloads have equal trailers. *)
Theorem crc_and_last_bit_trailer (payload payload' : bytes) :
  payload' = payload ->
  crc_and_last_bit payload
  = Ok [Z.lor (Z.shiftl (libscrc.crc7 payload) 1) 1] /\
  is_byte (Z.lor (Z.shiftl (libscrc.crc7 payload) 1) 1) /\
  crc_and_last_bit payload' = crc_and_last_bit payload.
Proof.
  intros ->. rewrite lor_shiftl1_1.
  split; [apply crc_and_last_bit_ok|].
  split; [|reflexivity].
  pose proof (crc7_range payload). unfold is_byte. lia.
Qed.

Lemma crc_and_last_bit_trailer_witness :
  crc_and_last_bit [0x40; 0; 0; 0; 0]
  = Ok [Z.lor (Z.shiftl (libscrc.crc7 [0x40; 0; 0; 0; 0]) 1) 1] /\
  is_byte (Z.lor (Z.shiftl (libscrc.crc7 [0x40; 0; 0; 0; 0]) 1) 1) /\
  crc_and_last_bit [0x40; 0; 0; 0; 0] = crc_and_last_bit [0x40; 0; 0; 0; 0].
Proof.
  apply (crc_and_last_bit_trailer [0x40; 0; 0; 0; 0] [0x40; 0; 0; 0; 0]).
  reflexivity.
Defined.

(** Known values of the CRC-7 of SD/MMC: the check value of the ASCII
    digits 1 to 9, and the last byte of the frames of CMD0 and CMD8. *)
Example crc7_check_value :
  libscrc.crc7 [49; 50; 51; 52; 53; 54; 55; 56; 57] = 0x75.
Proof. reflexivity. Qed.

Example crc_and_last_bit_CMD0 : crc_and_last_bit [0x40; 0; 0; 0; 0] = Ok [0x95].
Proof. reflexivity. Qed.

Example crc_and_last_bit_CMD8 :
  crc_and_last_bit [0x48; 0; 0; 1; 0xAA] = Ok [0x87].
Proof. reflexivity. Qed.

(** ** compute_CSD *)

Lemma tobytes_length_le n : forall b : bitarray,
  (length b <= 8 * n)%nat -> length (tobytes b) = ((length b + 7) / 8)%nat.
Proof.
  induction n as [|n IH]; intros b Hb.
  - destruct b; [reflexivity|simpl in Hb; lia].
  - destruct b as [|b7 [|b6 [|b5 [|b4 [|b3 [|b2 [|b1 [|b0 rest]]]]]]]];
      try reflexivity.
    cbn [tobytes length]. rewrite IH by (cbn [length] in Hb; lia).
    replace (S (S (S (S (S (S (S (S (length rest)))))))) + 7)%nat
      with (1 * 8 + (length rest + 7))%nat by lia.
    rewrite Nat.div_add_l by lia. reflexivity.
Qed.

Lemma tobytes_length (b : bitarray) :
  length (tobytes b) = ((length b + 7) / 8)%nat.
Proof. apply (tobytes_length_le (length b)). lia. Qed.

Lemma bits_value_range_aux (bs : bitarray) : forall acc,
  0 <= acc ->
  let f := fun a (b : bool) => 2 * a + (if b then 1 else 0) in
  acc * 2 ^ Z.of_nat (length bs) <= fold_left f bs acc
  < (acc + 1) * 2 ^ Z.of_nat (length bs).
Proof.
  induction bs as [|b bs IH]; intros acc Hacc f.
  - simpl. lia.
  - cbn [fold_left length]. rewrite Nat2Z.inj_succ, Z.pow_succ_r by lia.
    assert (Hp : 0 < 2 ^ Z.of_nat (length bs)) by (apply Z.pow_pos_nonneg; lia).
    specialize (IH (f acc b)). subst f. cbv beta in *.
    destruct b; (specialize (IH ltac:(lia)); cbv zeta in IH; nia).
Qed.

Lemma bits_value_range (bs : bitarray) :
  0 <= bits_value bs < 2 ^ Z.of_nat (length bs).
Proof.
  pose proof (bits_value_range_aux bs 0 ltac:(lia)) as H. cbv zeta in H.
  unfold bits_value. lia.
Qed.

Lemma tobytes_is_bytes_le n : forall b : bitarray,
  (length b <= 8 * n)%nat -> is_bytes (tobytes b).
Proof.
  induction n as [|n IH]; intros b Hb.
  - destruct b; [constructor|simpl in Hb; lia].
  - assert (Hone : forall p : bitarray, (length p <= 8)%nat ->
                     is_bytes [bits_value (p ++ repeat false (8 - length p))]).
    { intros p Hp. constructor; [|constructor].
      pose proof (bits_value_range (p ++ repeat false (8 - length p))) as Hr.
      rewrite length_app, repeat_length in Hr.
      replace (length p + (8 - length p))%nat with 8%nat in Hr by lia.
      exact Hr. }
    destruct b as [|b7 [|b6 [|b5 [|b4 [|b3 [|b2 [|b1 [|b0 rest]]]]]]]];
      try (apply Hone; cbn [length]; lia); [constructor|].
    cbn [tobytes]. constructor.
    + exact (bits_value_range [b7; b6; b5; b4; b3; b2; b1; b0]).
    + apply IH. cbn [length] in Hb. lia.
Qed.

Lemma tobytes_is_bytes (b : bitarray) : is_bytes (tobytes b).
Proof. apply (tobytes_is_bytes_le (length b)). lia. Qed.

Lemma compute_CSD_apply_29 a1 a2 a3 a4 a5 a6 a7 a8 a9 a10 a11 a12 a13 a14 a15
      a16 a17 a18 a19 a20 a21 a22 a23 a24 a25 a26 a27 a28 a29 :
  let bitCSD := concat [a1; a2; a3; a4; a5; a6; a7; a8; a9; a10; a11; a12;
                        a13; a14; a15; a16; a17; a18; a19; a20; a21; a22;
                        a23; a24; a25; a26; a27; a28; a29] in
  compute_CSD a1 a2 a3 a4 a5 a6 a7 a8 a9 a10 a11 a12 a13 a14 a15
              a16 a17 a18 a19 a20 a21 a22 a23 a24 a25 a26 a27 a28 a29
  = Ok (tobytes bitCSD ++ [2 * libscrc.crc7 (tobytes bitCSD) + 1]).
Proof.
  intros bitCSD. unfold compute_CSD. cbv zeta.
  assert (Hb : a1 ++ a2 ++ a3 ++ a4 ++ a5 ++ a6 ++ a7 ++ a8 ++ a9 ++ a10
               ++ a11 ++ a12 ++ a13 ++ a14 ++ a15 ++ a16 ++ a17 ++ a18
               ++ a19 ++ a20 ++ a21 ++ a22 ++ a23 ++ a24 ++ a25 ++ a26
               ++ a27 ++ a28 ++ a29 = bitCSD).
  { unfold bitCSD. cbn [concat]. rewrite app_nil_r. reflexivity. }
  rewrite Hb, crc_and_last_bit_ok. reflexivity.
Qed.

(** C7, for the 29 parameters of the signature.  When every field has its
    declared width, the fields joined in the order of the signature make a
    buffer of 120 bits, its bytes are 15, and [compute_CSD] returns these
    bytes followed by the one-byte trailer computed over them: 16 bytes. *)
Theorem compute_CSD_16_bytes
        (CSD_STRUCTURE RSV1 TAAC NSAC TRANS_SPEED CCC READ_BL_LEN
         READ_BL_PARTIAL WRITE_BLK_MISALIGN READ_BLK_MISALIGN DSR_IMP RSV2
         C_SIZE RSV3 ERASE_BLK_EN SECTOR_SIZE WP_GRP_SIZE WP_GRP_ENABLE RSV4
         R2W_FACTOR WRITE_BL_LEN WRITE_BL_LEN2 RSV5 FILE_FORMAT_GRP COPY
         PERM_WRITE_PROTECT TMP_WRITE_PROTECT FILE_FORMAT RSV6 : bitarray) :
  let fields := [CSD_STRUCTURE; RSV1; TAAC; NSAC; TRANS_SPEED; CCC;
                 READ_BL_LEN; READ_BL_PARTIAL; WRITE_BLK_MISALIGN;
                 READ_BLK_MISALIGN; DSR_IMP; RSV2; C_SIZE; RSV3; ERASE_BLK_EN;
                 SECTOR_SIZE; WP_GRP_SIZE; WP_GRP_ENABLE; RSV4; R2W_FACTOR;
                 WRITE_BL_LEN; WRITE_BL_LEN2; RSV5; FILE_FORMAT_GRP; COPY;
                 PERM_WRITE_PROTECT; TMP_WRITE_PROTECT; FILE_FORMAT; RSV6] in
  map (@length bool) fields = CSD_field_widths ->
  exists trail,
    length fields = 29%nat /\
    length (concat fields) = 120%nat /\
    length (tobytes (concat fields)) = 15%nat /\
    crc_and_last_bit (tobytes (concat fields)) = Ok trail /\
    length trail = 1%nat /\
    compute_CSD CSD_STRUCTURE RSV1 TAAC NSAC TRANS_SPEED CCC READ_BL_LEN
                READ_BL_PARTIAL WRITE_BLK_MISALIGN READ_BLK_MISALIGN DSR_IMP
                RSV2 C_SIZE RSV3 ERASE_BLK_EN SECTOR_SIZE WP_GRP_SIZE
                WP_GRP_ENABLE RSV4 R2W_FACTOR WRITE_BL_LEN WRITE_BL_LEN2
                RSV5 FILE_FORMAT_GRP COPY PERM_WRITE_PROTECT
                TMP_WRITE_PROTECT FILE_FORMAT RSV6
    = Ok (tobytes (concat fields) ++ trail) /\
    compute_CSD_apply fields = Ok (tobytes (concat fields) ++ trail) /\
    length (tobytes (concat fields) ++ trail) = 16%nat /\
    is_bytes (tobytes (concat fields) ++ trail).
Proof.
  intros fields Hw.
  assert (H120 : length (concat fields) = 120%nat).
  { rewrite length_concat, Hw. reflexivity. }
  assert (H15 : length (tobytes (concat fields)) = 15%nat).
  { rewrite tobytes_length, H120. reflexivity. }
  pose proof (compute_CSD_apply_29 CSD_STRUCTURE RSV1 TAAC NSAC TRANS_SPEED
                CCC READ_BL_LEN READ_BL_PARTIAL WRITE_BLK_MISALIGN
                READ_BLK_MISALIGN DSR_IMP RSV2 C_SIZE RSV3 ERASE_BLK_EN
                SECTOR_SIZE WP_GRP_SIZE WP_GRP_ENABLE RSV4 R2W_FACTOR
                WRITE_BL_LEN WRITE_BL_LEN2 RSV5 FILE_FORMAT_GRP COPY
                PERM_WRITE_PROTECT TMP_WRITE_PROTECT FILE_FORMAT RSV6) as Hc.
  cbv zeta in Hc. fold fields in Hc.
  exists [2 * libscrc.crc7 (tobytes (concat fields)) + 1].
  split; [reflexivity|].
  split; [exact H120|].
  split; [exact H15|].
  split; [apply crc_and_last_bit_ok|].
  split; [reflexivity|].
  split; [exact Hc|].
  split; [exact Hc|].
  split; [rewrite length_app, H15; reflexivity|].
  apply Forall_app. split; [apply tobytes_is_bytes|].
  pose proof (crc7_range (tobytes (concat fields))).
  constructor; [unfold is_byte; lia|constructor].
Qed.

Lemma compute_CSD_16_bytes_witness :
  let fields :=
    [SDModel.CSD_STRUCTURE; SDModel.RSV1; SDModel.TAAC; SDModel.NSAC;
     SDModel.TRANS_SPEED; SDModel.CCC; SDModel.READ_BL_LEN;
     SDModel.READ_BL_PARTIAL; SDModel.WRITE_BLK_MISALIGN;
     SDModel.READ_BLK_MISALIGN; SDModel.DSR_IMP; SDModel.RSV2;
     SDModel.C_SIZE; SDModel.RSV3; SDModel.ERASE_BLK_EN;
     SDModel.SECTOR_SIZE; SDModel.WP_GRP_SIZE; SDModel.WP_GRP_ENABLE;
     SDModel.RSV4; SDModel.R2W_FACTOR; SDModel.WRITE_BL_LEN;
     SDModel.WRITE_BL_LEN2; SDModel.RSV5; SDModel.FILE_FORMAT_GRP;
     SDModel.COPY; SDModel.PERM_WRITE_PROTECT; SDModel.TMP_WRITE_PROTECT;
     SDModel.FILE_FORMAT; SDModel.RSV6] in
  map (@length bool) fields = CSD_field_widths /\
  exists trail,
    SDModel.CSD = Ok (tobytes (concat fields) ++ trail) /\
    length (tobytes (concat fields) ++ trail) = 16%nat.
Proof.
  intros fields. split; [reflexivity|].
  destruct (compute_CSD_16_bytes
              SDModel.CSD_STRUCTURE SDModel.RSV1 SDModel.TAAC SDModel.NSAC
              SDModel.TRANS_SPEED SDModel.CCC SDModel.READ_BL_LEN
              SDModel.READ_BL_PARTIAL SDModel.WRITE_BLK_MISALIGN
              SDModel.READ_BLK_MISALIGN SDModel.DSR_IMP SDModel.RSV2
              SDModel.C_SIZE SDModel.RSV3 SDModel.ERASE_BLK_EN
              SDModel.SECTOR_SIZE SDModel.WP_GRP_SIZE SDModel.WP_GRP_ENABLE
              SDModel.RSV4 SDModel.R2W_FACTOR SDModel.WRITE_BL_LEN
              SDModel.WRITE_BL_LEN2 SDModel.RSV5 SDModel.FILE_FORMAT_GRP
              SDModel.COPY SDModel.PERM_WRITE_PROTECT
              SDModel.TMP_WRITE_PROTECT SDModel.FILE_FORMAT SDModel.RSV6
              eq_refl)
    as (trail & _ & _ & _ & _ & _ & Hc & _ & H16 & _).
  exists trail. split; [exact Hc|exact H16].
Defined.

(** C7, as the claim words it, fails: the signature has 29 parameters, and
    a call with 28 bit sequences is rejected with TypeError, also when
    their widths sum to 120 (here the last two fields of [SDModel] are
    passed as one of four bits). *)
Lemma compute_CSD_28_fields_TypeError :
  let fields :=
    [SDModel.CSD_STRUCTURE; SDModel.RSV1; SDModel.TAAC; SDModel.NSAC;
     SDModel.TRANS_SPEED; SDModel.CCC; SDModel.READ_BL_LEN;
     SDModel.READ_BL_PARTIAL; SDModel.WRITE_BLK_MISALIGN;
     SDModel.READ_BLK_MISALIGN; SDModel.DSR_IMP; SDModel.RSV2;
     SDModel.C_SIZE; SDModel.RSV3; SDModel.ERASE_BLK_EN;
     SDModel.SECTOR_SIZE; SDModel.WP_GRP_SIZE; SDModel.WP_GRP_ENABLE;
     SDModel.RSV4; SDModel.R2W_FACTOR; SDModel.WRITE_BL_LEN;
     SDModel.WRITE_BL_LEN2; SDModel.RSV5; SDModel.FILE_FORMAT_GRP;
     SDModel.COPY; SDModel.PERM_WRITE_PROTECT; SDModel.TMP_WRITE_PROTECT;
     SDModel.FILE_FORMAT ++ SDModel.RSV6] in
  length fields = 28%nat /\
  length (concat fields) = 120%nat /\
  compute_CSD_apply fields = Raise TypeError /\
  (forall CSD, compute_CSD_apply fields = Ok CSD -> False).
Proof.
  intros fields. repeat split; try reflexivity.
  intros CSD H. discriminate H.
Qed.

Example SDModel_CSD_value :
  SDModel.CSD
  = Ok [0x40; 0x0e; 0x00; 0x5a; 0x5b; 0x59; 0x00; 0x00; 0x12; 0x7f; 0x7f;
        0x80; 0x0a; 0x40; 0x00; 0x93].
Proof. reflexivity. Qed.

Example SDModel_CID_value :
  SDModel.CID
  = Ok [0x41; 0x34; 0x32; 0x53; 0x44; 0x43; 0x49; 0x54; 0x30; 0x12; 0x34;
        0x56; 0x78; 0x01; 0x12; 0x57].
Proof. reflexivity. Qed.

(** ** The dictionary *)

Lemma list_Z_eqb_eq xs : forall ys, list_Z_eqb xs ys = true <-> xs = ys.
Proof.
  induction xs as [|x xs IH]; intros [|y ys]; simpl; split; intros H;
    try reflexivity; try discriminate.
  - apply andb_true_iff in H. destruct H as [Hx Hxs].
    apply Z.eqb_eq in Hx. apply IH in Hxs. congruence.
  - inversion H; subst. rewrite Z.eqb_refl. simpl. apply IH. reflexivity.
Qed.

Lemma key_eqb_eq k1 k2 : key_eqb k1 k2 = true <-> k1 = k2.
Proof.
  destruct k1 as [a|xs], k2 as [b|ys]; simpl; split; intros H;
    try discriminate.
  - apply Z.eqb_eq in H. congruence.
  - inversion H. apply Z.eqb_refl.
  - apply list_Z_eqb_eq in H. congruence.
  - inversion H. apply list_Z_eqb_eq. reflexivity.
Qed.

Lemma key_eqb_refl k : key_eqb k k = true.
Proof. apply key_eqb_eq. reflexivity. Qed.

Lemma key_eqb_neq k1 k2 : key_eqb k1 k2 = false <-> k1 <> k2.
Proof.
  split.
  - intros H E. apply key_eqb_eq in E. congruence.
  - intros H. destruct (key_eqb k1 k2) eqn:E; [|reflexivity].
    apply key_eqb_eq in E. contradiction.
Qed.

Lemma key_eqb_sym k1 k2 : key_eqb k1 k2 = key_eqb k2 k1.
Proof.
  destruct (key_eqb k2 k1) eqn:E.
  - apply key_eqb_eq in E. subst. apply key_eqb_refl.
  - apply key_eqb_neq. apply key_eqb_neq in E. congruence.
Qed.

Lemma dict_get_set_same d k v : dict_get (dict_set d k v) k = Some v.
Proof.
  induction d as [|[k' v'] d IH]; simpl.
  - rewrite key_eqb_refl. reflexivity.
  - destruct (key_eqb k k') eqn:E; simpl; rewrite E; [reflexivity|exact IH].
Qed.

Lemma dict_get_set_other d k v k' :
  key_eqb k k' = false -> dict_get (dict_set d k v) k' = dict_get d k'.
Proof.
  intros Hne. induction d as [|[k0 v0] d IH]; simpl.
  - rewrite key_eqb_sym, Hne. reflexivity.
  - destruct (key_eqb k k0) eqn:E; simpl.
    + apply key_eqb_eq in E. subst k0.
      rewrite key_eqb_sym, Hne. reflexivity.
    + destruct (key_eqb k' k0); [reflexivity|exact IH].
Qed.

Lemma dict_get_In d k v : dict_get d k = Some v -> In (k, v) d.
Proof.
  induction d as [|[k' v'] d IH]; simpl; [discriminate|].
  destruct (key_eqb k k') eqn:E; intros H.
  - apply key_eqb_eq in E. inversion H. subst. left. reflexivity.
  - right. auto.
Qed.


(** ** Reads *)

Lemma read_block_spec addr w :
  SDModel.read_block addr w = (Ok (stored_or_zeros (disk w) addr), w).
Proof.
  unfold SDModel.read_block, stored_or_zeros, dict_contains. cbv zeta.
  destruct (dict_get (disk w) addr); reflexivity.
Qed.

Lemma get_block_list_spec w :
  SDModel.get_block_list w = (Ok (dict_keys (disk w)), w).
Proof.
  unfold SDModel.get_block_list. do 2 f_equal.
  assert (H : forall (l acc : list key),
             fold_left (fun blocks addr => blocks ++ [addr]) l acc = acc ++ l).
  { induction l as [|k l IH]; intros acc; simpl.
    - rewrite app_nil_r. reflexivity.
    - rewrite IH, <- app_assoc. reflexivity. }
  apply H.
Qed.

(** ** Frame: what a call leaves alone *)

Lemma keeps_disk_ret {A} (a : A) : keeps_disk (ret a).
Proof. intros w. reflexivity. Qed.

Lemma keeps_disk_lift {A} (r : result A) : keeps_disk (lift r).
Proof. intros w. reflexivity. Qed.

Lemma keeps_disk_bindM {A B} (m : M A) (k : A -> M B) :
  keeps_disk m -> (forall a, keeps_disk (k a)) -> keeps_disk (bindM m k).
Proof.
  intros Hm Hk w. unfold bindM. specialize (Hm w).
  destruct (m w) as [[a|e] w']; simpl in *.
  - rewrite Hk. exact Hm.
  - exact Hm.
Qed.

Lemma keeps_disk_for_each {X} (l : list X) (body : X -> M unit) :
  (forall x, keeps_disk (body x)) -> keeps_disk (for_each l body).
Proof.
  intros Hb. induction l as [|x l IH]; simpl.
  - apply keeps_disk_ret.
  - apply keeps_disk_bindM; auto.
Qed.

Lemma keeps_disk_open_wb path : keeps_disk (open_wb path).
Proof. intros w. reflexivity. Qed.

Lemma keeps_disk_file_write path data : keeps_disk (file_write path data).
Proof. intros w. unfold file_write. destruct (fs w path); reflexivity. Qed.

Lemma keeps_disk_print s : keeps_disk (print s).
Proof. intros w. reflexivity. Qed.

Lemma keeps_disk_read_block addr : keeps_disk (SDModel.read_block addr).
Proof. intros w. rewrite read_block_spec. reflexivity. Qed.

Lemma keeps_disk_get_block_count : keeps_disk SDModel.get_block_count.
Proof. intros w. reflexivity. Qed.

Lemma keeps_disk_get_block_list : keeps_disk SDModel.get_block_list.
Proof. intros w. reflexivity. Qed.

Lemma keeps_disk_print_block addr : keeps_disk (SDModel.print_block addr).
Proof.
  intros w. unfold SDModel.print_block.
  destruct (dict_contains (disk w) addr); [|reflexivity].
  destruct (dict_get (disk w) addr); reflexivity.
Qed.

Create HintDb frame.
#[local] Hint Resolve keeps_disk_ret keeps_disk_lift keeps_disk_open_wb
  keeps_disk_file_write keeps_disk_print keeps_disk_read_block
  keeps_disk_get_block_count keeps_disk_get_block_list
  keeps_disk_print_block : frame.

Ltac frame :=
  repeat first
    [ apply keeps_disk_bindM; [|intros ?]
    | apply keeps_disk_for_each; intros ?
    | match goal with |- keeps_disk (let '(_, _) := ?p in _) => destruct p end
    | solve [auto with frame] ].

Lemma keeps_disk_export_to_file name : keeps_disk (SDModel.export_to_file name).
Proof. unfold SDModel.export_to_file. frame. Qed.

Lemma keeps_disk_export_as_dictionary name :
  keeps_disk (SDModel.export_as_dictionary name).
Proof.
  unfold SDModel.export_as_dictionary. frame.
Qed.

Lemma exec_keeps_disk o w : writes_disk o = false -> disk (exec o w) = disk w.
Proof.
  destruct o; intros H; try discriminate; cbn [exec].
  - apply keeps_disk_read_block.
  - apply keeps_disk_get_block_count.
  - apply keeps_disk_get_block_list.
  - apply keeps_disk_print_block.
  - apply keeps_disk_export_to_file.
  - apply keeps_disk_export_as_dictionary.
Qed.

Lemma run_keeps_disk ops : forall w,
  forallb (fun o => negb (writes_disk o)) ops = true ->
  disk (run ops w) = disk w.
Proof.
  induction ops as [|o ops IH]; intros w H; simpl in *; [reflexivity|].
  apply andb_true_iff in H. destruct H as [Ho Hops].
  unfold run in IH. rewrite IH by exact Hops.
  apply exec_keeps_disk. destruct (writes_disk o); [discriminate|reflexivity].
Qed.

(** ** What an import touches *)

Lemma struct_unpack_I_Tuple bs addr :
  struct_unpack_I bs = Ok addr ->
  length bs = 4%nat /\ addr = Tuple [from_bytes bs].
Proof.
  unfold struct_unpack_I. destruct (length bs =? 4)%nat eqn:E; [|discriminate].
  apply Nat.eqb_eq in E. intros H. inversion H. auto.
Qed.

Lemma struct_unpack_I_Raise bs e :
  struct_unpack_I bs = Raise e -> e = struct_error /\ length bs <> 4%nat.
Proof.
  unfold struct_unpack_I. destruct (length bs =? 4)%nat eqn:E; [discriminate|].
  apply Nat.eqb_neq in E. intros H. inversion H. auto.
Qed.

Lemma import_records_raises data d :
  exists d', import_records data d = (Raise struct_error, d').
Proof.
  funelim (import_records data d).
  - assumption.
  - match goal with E : struct_unpack_I _ = Raise _ |- _ =>
      destruct (struct_unpack_I_Raise _ _ E) as [-> _] end.
    exists d. reflexivity.
Qed.

Lemma import_records_get_Int data d n :
  dict_get (snd (import_records data d)) (Int n) = dict_get d (Int n).
Proof.
  funelim (import_records data d).
  - match goal with IH : forall _, dict_get _ _ = _ |- _ => rewrite IH end.
    match goal with E : struct_unpack_I _ = Ok _ |- _ =>
      destruct (struct_unpack_I_Tuple _ _ E) as [_ ->] end.
    apply dict_get_set_other. reflexivity.
  - reflexivity.
Qed.

Lemma import_from_dictionary_get_Int name w n :
  dict_get (disk (snd (SDModel.import_from_dictionary name w))) (Int n)
  = dict_get (disk w) (Int n).
Proof.
  unfold SDModel.import_from_dictionary, bindM, open_rb.
  destruct (fs w ("./" ++ name)%string) as [data|]; [|reflexivity].
  pose proof (import_records_get_Int data (disk w) n) as H.
  destruct (import_records data (disk w)) as [r d]. exact H.
Qed.

Lemma exec_get_other addr o w :
  may_write addr o = false ->
  dict_get (disk (exec o w)) addr = dict_get (disk w) addr.
Proof.
  intros H. destruct o; try (rewrite exec_keeps_disk by reflexivity; reflexivity).
  - cbn [exec SDModel.write_block snd set_disk disk].
    apply dict_get_set_other. exact H.
  - simpl in H. destruct addr as [n|ns]; [|discriminate].
    apply import_from_dictionary_get_Int.
Qed.

Lemma run_get_other addr ops : forall w,
  never_written addr ops = true ->
  dict_get (disk (run ops w)) addr = dict_get (disk w) addr.
Proof.
  induction ops as [|o ops IH]; intros w H; [reflexivity|].
  cbn [never_written forallb] in H. apply andb_true_iff in H.
  destruct H as [Ho Hops]. cbn [run fold_left]. unfold run in IH.
  rewrite IH by exact Hops. apply exec_get_other.
  destruct (may_write addr o); [discriminate|reflexivity].
Qed.

(** ** Block store: reads, writes, frame *)

(** C3. Start from the empty store and issue any calls; a read of an
    address that no call could assign (for an integer address: that was
    never passed to [write_block]) returns 512 bytes of value zero.  A
    read never raises, whatever the key and the state. *)
Theorem read_block_never_written
        (addr : key) (ops : list op) (files : string -> option bytes) :
  never_written addr ops = true ->
  SDModel.read_block addr (run ops (initial_world files))
  = (Ok (repeat 0 512), run ops (initial_world files)) /\
  length (repeat 0 512) = 512%nat /\
  Forall (fun b => b = 0) (repeat 0 512) /\
  (forall addr' w', exists block,
      SDModel.read_block addr' w' = (Ok block, w')).
Proof.
  intros Hnw. split; [|split; [|split]].
  - rewrite read_block_spec. unfold stored_or_zeros.
    rewrite run_get_other by exact Hnw. reflexivity.
  - apply repeat_length.
  - apply Forall_forall. intros b Hb. apply repeat_spec in Hb. exact Hb.
  - intros addr' w'. eexists. apply read_block_spec.
Qed.

Lemma read_block_never_written_witness :
  let ops := [WriteBlock (Int 5) AA512; ExportAsDictionary "dic";
              ImportFromDictionary "dic"; ReadBlock (Int 7)] in
  never_written (Int 7) ops = true /\
  SDModel.read_block (Int 7) (run ops (initial_world no_files))
  = (Ok (repeat 0 512), run ops (initial_world no_files)).
Proof.
  intros ops. split; [reflexivity|].
  apply (read_block_never_written (Int 7) ops no_files). reflexivity.
Defined.

(** C4. After [write_block(A, C)], and any calls that cannot assign to
    [A], a read of [A] returns [C]; a later [write_block(A, C')] replaces
    the entry, and a read then returns [C']. *)
Theorem write_block_then_read_block
        (A : key) (C C' : bytes) (ops ops' : list op) (w : world) :
  never_written A ops = true ->
  never_written A ops' = true ->
  let w1 := run ops (exec (WriteBlock A C) w) in
  let w2 := run ops' (exec (WriteBlock A C') w1) in
  SDModel.read_block A w1 = (Ok C, w1) /\
  SDModel.read_block A w2 = (Ok C', w2) /\
  SDModel.read_block A (snd (SDModel.write_block A C w))
  = (Ok C, snd (SDModel.write_block A C w)).
Proof.
  intros H H' w1 w2.
  assert (Hw : forall c ops0 w0, never_written A ops0 = true ->
            dict_get (disk (run ops0 (exec (WriteBlock A c) w0))) A = Some c).
  { intros c ops0 w0 H0. rewrite run_get_other by exact H0.
    cbn [exec SDModel.write_block snd set_disk disk].
    apply dict_get_set_same. }
  split; [|split].
  - rewrite read_block_spec. unfold stored_or_zeros, w1.
    rewrite Hw by exact H. reflexivity.
  - rewrite read_block_spec. unfold stored_or_zeros, w2.
    rewrite Hw by exact H'. reflexivity.
  - rewrite read_block_spec. unfold stored_or_zeros.
    cbn [SDModel.write_block snd set_disk disk].
    rewrite dict_get_set_same. reflexivity.
Qed.

Lemma write_block_then_read_block_witness :
  let ops := [ReadBlock (Int 3); WriteBlock (Int 4) BB512;
              ExportToFile "img"] in
  let ops' := [GetBlockCount; ImportFromDictionary "img"] in
  let w := initial_world no_files in
  let w1 := run ops (exec (WriteBlock (Int 3) AA512) w) in
  let w2 := run ops' (exec (WriteBlock (Int 3) [1; 2; 3]) w1) in
  SDModel.read_block (Int 3) w1 = (Ok AA512, w1) /\
  SDModel.read_block (Int 3) w2 = (Ok [1; 2; 3], w2) /\
  SDModel.read_block (Int 3) (snd (SDModel.write_block (Int 3) AA512 w))
  = (Ok AA512, snd (SDModel.write_block (Int 3) AA512 w)).
Proof.
  intros ops ops' w.
  apply (write_block_then_read_block (Int 3) AA512 [1; 2; 3] ops ops' w);
    reflexivity.
Defined.

(** C10. The queries and the exports leave the mapping of the store as it
    was, whether they return or raise; so does any sequence of calls other
    than [write_block] and [import_from_dictionary].  Reading an address
    that is absent creates no entry: the state after the read is the state
    before, and the block count and the block list are the same. *)
Theorem queries_and_exports_keep_disk
        (ops : list op) (w : world) (missing : key) :
  forallb (fun o => negb (writes_disk o)) ops = true ->
  dict_get (disk w) missing = None ->
  disk (run ops w) = disk w /\
  (forall addr, keeps_disk (SDModel.read_block addr)) /\
  keeps_disk SDModel.get_block_count /\
  keeps_disk SDModel.get_block_list /\
  (forall addr, keeps_disk (SDModel.print_block addr)) /\
  (forall name, keeps_disk (SDModel.export_to_file name)) /\
  (forall name, keeps_disk (SDModel.export_as_dictionary name)) /\
  snd (SDModel.read_block missing w) = w /\
  dict_get (disk (snd (SDModel.read_block missing w))) missing = None /\
  fst (SDModel.get_block_count (snd (SDModel.read_block missing w)))
  = fst (SDModel.get_block_count w) /\
  fst (SDModel.get_block_list (snd (SDModel.read_block missing w)))
  = fst (SDModel.get_block_list w).
Proof.
  intros Hq Hmiss.
  assert (Hr : snd (SDModel.read_block missing w) = w)
    by (rewrite read_block_spec; reflexivity).
  rewrite Hr.
  repeat split; auto using run_keeps_disk, keeps_disk_read_block,
    keeps_disk_get_block_count, keeps_disk_get_block_list,
    keeps_disk_print_block, keeps_disk_export_to_file,
    keeps_disk_export_as_dictionary.
Qed.

Lemma queries_and_exports_keep_disk_witness :
  let w := exec (WriteBlock (Int 0) AA512) (initial_world no_files) in
  let ops := [ReadBlock (Int 9); GetBlockCount; GetBlockList;
              PrintBlock (Int 0); PrintBlock (Int 9); ExportToFile "img";
              ExportAsDictionary "dic"] in
  disk (run ops w) = disk w /\
  fst (SDModel.get_block_count (snd (SDModel.read_block (Int 9) w)))
  = fst (SDModel.get_block_count w).
Proof.
  intros w ops.
  destruct (queries_and_exports_keep_disk ops w (Int 9) eq_refl eq_refl)
    as (H1 & _ & _ & _ & _ & _ & _ & _ & _ & H2 & _).
  split; [exact H1|exact H2].
Defined.

(** ** Sorting the block list: first and last *)

Lemma insert_key_In x k l : In x (insert_key k l) <-> x = k \/ In x l.
Proof.
  induction l as [|y l IH]; simpl.
  - intuition.
  - destruct (key_leb k y); simpl; [intuition|]. rewrite IH. intuition.
Qed.

Lemma sorted_keys_In x l : In x (sorted_keys l) <-> In x l.
Proof.
  induction l as [|k l IH]; simpl; [reflexivity|].
  rewrite insert_key_In, IH. intuition.
Qed.

Lemma insert_key_all_Int a l :
  forallb is_Int l = true -> forallb is_Int (insert_key (Int a) l) = true.
Proof.
  induction l as [|y l IH]; simpl; intros H; [reflexivity|].
  apply andb_true_iff in H. destruct H as [Hy Hl].
  destruct y as [b|]; [|discriminate].
  destruct (a <=? b); cbn [forallb is_Int andb]; auto.
Qed.

Lemma sorted_keys_all_Int l :
  forallb is_Int l = true -> forallb is_Int (sorted_keys l) = true.
Proof.
  induction l as [|k l IH]; simpl; intros H; [reflexivity|].
  apply andb_true_iff in H. destruct H as [Hk Hl].
  destruct k as [a|]; [|discriminate]. apply insert_key_all_Int. auto.
Qed.

Lemma insert_key_nonempty k l : insert_key k l <> [].
Proof. destruct l; simpl; [|destruct (key_leb _ _)]; discriminate. Qed.

Lemma index_last_cons k l : l <> [] -> index_last (k :: l) = index_last l.
Proof. destruct l; [congruence|reflexivity]. Qed.

Lemma insert_key_first a s lo :
  index_first s = Ok (Int lo) ->
  index_first (insert_key (Int a) s) = Ok (Int (Z.min a lo)).
Proof.
  destruct s as [|[x|xs] s]; simpl; intros H; inversion H; subst.
  destruct (a <=? lo) eqn:E; simpl; f_equal; f_equal.
  - apply Z.leb_le in E. lia.
  - apply Z.leb_gt in E. lia.
Qed.

Lemma insert_key_last a s : forall hi,
  forallb is_Int s = true ->
  index_last s = Ok (Int hi) ->
  (forall n, In (Int n) s -> n <= hi) ->
  index_last (insert_key (Int a) s) = Ok (Int (Z.max a hi)).
Proof.
  induction s as [|k s IH]; intros hi Hall Hlast Hmax; [discriminate|].
  cbn [forallb] in Hall. apply andb_true_iff in Hall.
  destruct Hall as [Hk Hs]. destruct k as [x|]; [|discriminate].
  cbn [insert_key key_leb]. destruct (a <=? x) eqn:E.
  - apply Z.leb_le in E. rewrite index_last_cons by discriminate.
    rewrite Hlast. do 2 f_equal.
    specialize (Hmax x (or_introl eq_refl)). lia.
  - apply Z.leb_gt in E. rewrite index_last_cons by apply insert_key_nonempty.
    destruct s as [|k' s'].
    + simpl in *. inversion Hlast; subst. do 2 f_equal. lia.
    + rewrite index_last_cons in Hlast by discriminate.
      apply IH; auto. intros n Hn. apply Hmax. right. exact Hn.
Qed.

Lemma sorted_keys_first_last l :
  l <> [] -> forallb is_Int l = true ->
  exists lo hi,
    index_first (sorted_keys l) = Ok (Int lo) /\
    index_last (sorted_keys l) = Ok (Int hi) /\
    In (Int lo) l /\ In (Int hi) l /\
    (forall n, In (Int n) l -> lo <= n <= hi).
Proof.
  induction l as [|k l IH]; intros Hne Hall; [congruence|].
  cbn [forallb] in Hall. apply andb_true_iff in Hall.
  destruct Hall as [Hk Hl]. destruct k as [a|]; [|discriminate].
  destruct l as [|k' l'].
  - exists a, a. simpl. repeat split; auto; destruct H; inversion H; lia.
  - destruct (IH ltac:(discriminate) Hl) as (lo & hi & Hf & Hla & Hlo & Hhi & Hb).
    exists (Z.min a lo), (Z.max a hi).
    change (sorted_keys (Int a :: k' :: l'))
      with (insert_key (Int a) (sorted_keys (k' :: l'))).
    split; [apply insert_key_first; exact Hf|].
    split.
    { apply insert_key_last; auto using sorted_keys_all_Int.
      intros n Hn. apply (proj1 (sorted_keys_In _ _)) in Hn.
      specialize (Hb n Hn). lia. }
    split.
    { destruct (Z.min_spec a lo) as [[_ ->]|[_ ->]];
        [left; reflexivity|right; exact Hlo]. }
    split.
    { destruct (Z.max_spec a hi) as [[_ ->]|[_ ->]];
        [right; exact Hhi|left; reflexivity]. }
    intros n [Hn|Hn].
    + inversion Hn; subst. lia.
    + specialize (Hb n Hn). lia.
Qed.

(** ** range and images made of blocks *)

Lemma range_length a b : length (range a b) = Z.to_nat (b - a).
Proof. unfold range. rewrite length_map, length_seq. reflexivity. Qed.

Lemma range_nth a b i :
  (i < Z.to_nat (b - a))%nat -> nth i (range a b) 0 = a + Z.of_nat i.
Proof.
  intros H. unfold range.
  rewrite (nth_indep _ 0 (a + Z.of_nat 0))
    by (rewrite length_map, length_seq; exact H).
  pose proof (map_nth (fun j => a + Z.of_nat j) (seq 0 (Z.to_nat (b - a))) O i)
    as Hm.
  cbv beta in Hm. rewrite Hm, seq_nth by exact H. reflexivity.
Qed.

Lemma concat_blocks_length (f : Z -> bytes) l :
  (forall x, length (f x) = 512%nat) ->
  length (concat (map f l)) = (512 * length l)%nat.
Proof.
  intros Hf. induction l as [|x l IH]; [reflexivity|].
  cbn [map concat length]. rewrite length_app, Hf, IH. lia.
Qed.

Lemma concat_blocks_slice (f : Z -> bytes) l : forall i,
  (forall x, length (f x) = 512%nat) ->
  (i < length l)%nat ->
  firstn 512 (skipn (512 * i) (concat (map f l))) = f (nth i l 0).
Proof.
  induction l as [|x l IH]; intros i Hf Hi; [simpl in Hi; lia|].
  cbn [map concat]. destruct i as [|i].
  - rewrite Nat.mul_0_r. cbn [skipn nth].
    rewrite firstn_app, Hf, Nat.sub_diag, firstn_O, app_nil_r.
    apply firstn_all2. rewrite Hf. lia.
  - cbn [nth]. rewrite skipn_app, Hf.
    rewrite skipn_all2 by (rewrite Hf; lia).
    replace (512 * S i - 512)%nat with (512 * i)%nat by lia.
    cbn [app]. apply IH; [exact Hf|simpl in Hi; lia].
Qed.

Lemma stored_or_zeros_length d addr :
  Forall (fun kv : key * bytes => length (snd kv) = 512%nat) d ->
  length (stored_or_zeros d addr) = 512%nat.
Proof.
  intros Hd. unfold stored_or_zeros.
  destruct (dict_get d addr) as [v|] eqn:E; [|apply repeat_length].
  apply dict_get_In in E. rewrite Forall_forall in Hd.
  exact (Hd _ E).
Qed.

(** ** export_to_file *)

Lemma fs_set_file_same path content w :
  fs (set_file path content w) path = Some content.
Proof. cbn [set_file fs]. rewrite String.eqb_refl. reflexivity. Qed.

Lemma export_loop path addrs : forall w old,
  fs w path = Some old ->
  exists w',
    for_each addrs
      (fun i => block <~ SDModel.read_block (Int i) ;; file_write path block) w
    = (Ok tt, w') /\
    fs w' path
    = Some (old ++ concat (map (fun i => stored_or_zeros (disk w) (Int i)) addrs)) /\
    disk w' = disk w.
Proof.
  induction addrs as [|i addrs IH]; intros w old Hold.
  - exists w. cbn. rewrite app_nil_r. auto.
  - cbn [for_each]. unfold bindM at 1 2. rewrite read_block_spec.
    unfold file_write at 1. rewrite Hold.
    set (w1 := set_file path (old ++ stored_or_zeros (disk w) (Int i)) w).
    destruct (IH w1 (old ++ stored_or_zeros (disk w) (Int i))
                 (fs_set_file_same _ _ _)) as (w' & Hrun & Hfs & Hdisk).
    exists w'. split; [exact Hrun|]. split; [|exact Hdisk].
    rewrite Hfs. cbn [map concat]. rewrite app_assoc. reflexivity.
Qed.

Lemma export_to_file_empty name w :
  disk w = [] ->
  SDModel.export_to_file name w
  = (Raise IndexError, set_file ("./" ++ name) [] w).
Proof.
  intros Hd. unfold SDModel.export_to_file, bindM, open_wb.
  rewrite get_block_list_spec. cbn [set_file disk]. rewrite Hd. reflexivity.
Qed.

Lemma export_to_file_spec name w :
  disk w <> [] ->
  forallb is_Int (dict_keys (disk w)) = true ->
  exists lo hi w',
    In (Int lo) (dict_keys (disk w)) /\
    In (Int hi) (dict_keys (disk w)) /\
    (forall n, In (Int n) (dict_keys (disk w)) -> lo <= n <= hi) /\
    SDModel.export_to_file name w = (Ok tt, w') /\
    fs w' ("./" ++ name)
    = Some (concat (map (fun n => stored_or_zeros (disk w) (Int n))
                        (range lo (hi + 1)))) /\
    disk w' = disk w.
Proof.
  intros Hne Hall.
  assert (Hkne : dict_keys (disk w) <> []).
  { unfold dict_keys. destruct (disk w); [congruence|discriminate]. }
  destruct (sorted_keys_first_last _ Hkne Hall)
    as (lo & hi & Hf & Hl & Hlo & Hhi & Hb).
  set (path := ("./" ++ name)%string).
  destruct (export_loop path (range lo (hi + 1)) (set_file path [] w) []
              (fs_set_file_same _ _ _)) as (w' & Hrun & Hfs & Hdisk).
  exists lo, hi, w'. repeat split; try assumption; try (apply Hb; assumption).
  unfold SDModel.export_to_file, bindM, open_wb. fold path.
  rewrite get_block_list_spec. cbn [set_file disk].
  unfold lift, list_sort. rewrite Hall. cbn [orb].
  rewrite Hf, Hl. cbn [range_to_inclusive]. exact Hrun.
Qed.

(** C6, as the code has it.  On a store of integer addresses and 512-byte
    blocks: if it is empty, [export_to_file] raises (IndexError, after it
    created the file); otherwise it writes, for every address from the
    least stored one [lo] to the greatest stored one [hi], in ascending
    order, the stored block or 512 zero bytes, so that the block of address
    [n] is at byte offset [(n - lo) * 512] of the image.  In the example
    of the spec, blocks 0 and 2 written and 1 left out, the image is the
    1536 bytes 0xAA x 512, 0x00 x 512, 0xBB x 512. *)
Theorem export_to_file_image (name : string) (w : world) :
  forallb is_Int (dict_keys (disk w)) = true ->
  Forall (fun kv : key * bytes => length (snd kv) = 512%nat) (disk w) ->
  match disk w with
  | [] =>
      exists w', SDModel.export_to_file name w = (Raise IndexError, w')
  | _ :: _ =>
      exists lo hi image w',
        In (Int lo) (dict_keys (disk w)) /\
        In (Int hi) (dict_keys (disk w)) /\
        (forall n, In (Int n) (dict_keys (disk w)) -> lo <= n <= hi) /\
        SDModel.export_to_file name w = (Ok tt, w') /\
        fs w' ("./" ++ name) = Some image /\
        image = concat (map (fun n => stored_or_zeros (disk w) (Int n))
                            (range lo (hi + 1))) /\
        Z.of_nat (length image) = 512 * (hi - lo + 1) /\
        (forall n, lo <= n <= hi ->
           slice512 image (512 * (n - lo)) = stored_or_zeros (disk w) (Int n))
  end /\
  (let w2 := run [WriteBlock (Int 0) AA512; WriteBlock (Int 2) BB512;
                  ExportToFile "img"] (initial_world no_files) in
   fs w2 "./img" = Some (AA512 ++ repeat 0 512 ++ BB512) /\
   length (AA512 ++ repeat 0 512 ++ BB512) = 1536%nat).
Proof.
  intros Hall H512. split; [|split; vm_compute; reflexivity].
  destruct (disk w) as [|kv d] eqn:Hd.
  - eexists. apply export_to_file_empty. exact Hd.
  - rewrite <- Hd in *.
    destruct (export_to_file_spec name w ltac:(congruence) Hall)
      as (lo & hi & w' & Hlo & Hhi & Hb & Hrun & Hfs & _).
    exists lo, hi,
      (concat (map (fun n => stored_or_zeros (disk w) (Int n))
                   (range lo (hi + 1)))), w'.
    assert (Hlen : forall x, length (stored_or_zeros (disk w) (Int x)) = 512%nat)
      by (intros x; apply stored_or_zeros_length; exact H512).
    assert (Hle : lo <= hi) by (specialize (Hb lo Hlo); lia).
    repeat (split; [eassumption|]).
    split; [reflexivity|]. split.
    + rewrite (concat_blocks_length _ _ Hlen), range_length. lia.
    + intros n Hn. unfold slice512.
      replace (Z.to_nat (512 * (n - lo))) with (512 * Z.to_nat (n - lo))%nat
        by lia.
      rewrite (concat_blocks_slice _ _ _ Hlen) by (rewrite range_length; lia).
      rewrite range_nth by lia. f_equal. f_equal. lia.
Qed.

Lemma export_to_file_image_witness :
  let w := run [WriteBlock (Int 3) AA512; WriteBlock (Int 5) BB512]
               (initial_world no_files) in
  exists lo hi image w',
    In (Int lo) (dict_keys (disk w)) /\
    In (Int hi) (dict_keys (disk w)) /\
    (forall n, In (Int n) (dict_keys (disk w)) -> lo <= n <= hi) /\
    SDModel.export_to_file "img" w = (Ok tt, w') /\
    fs w' "./img" = Some image /\
    image = concat (map (fun n => stored_or_zeros (disk w) (Int n))
                        (range lo (hi + 1))) /\
    Z.of_nat (length image) = 512 * (hi - lo + 1) /\
    (forall n, lo <= n <= hi ->
       slice512 image (512 * (n - lo)) = stored_or_zeros (disk w) (Int n)).
Proof.
  intros w.
  refine (proj1 (export_to_file_image "img" w eq_refl _)).
  repeat constructor.
Defined.

(** C6, as the claim words it, fails where it puts address [N] at byte
    offset [N * 512]: with the single block 1 stored, the image is that
    block alone, at offset 0, and nothing is at offset 512. *)
Lemma export_to_file_offset_not_N_times_512 :
  let w := run [WriteBlock (Int 1) BB512; ExportToFile "img"]
               (initial_world no_files) in
  fs w "./img" = Some BB512 /\
  stored_or_zeros (disk w) (Int 1) = BB512 /\
  slice512 BB512 (512 * 1) = [] /\
  slice512 BB512 (512 * 1) <> stored_or_zeros (disk w) (Int 1) /\
  slice512 BB512 (512 * (1 - 1)) = stored_or_zeros (disk w) (Int 1).
Proof.
  vm_compute. repeat split; try reflexivity. discriminate.
Qed.

(** ** The dictionary file *)

Lemma import_records_step data d :
  import_records data d
  = match struct_unpack_I (file_read 4 data) with
    | Ok addr =>
        import_records (file_rest 512 (file_rest 4 data))
                       (dict_set d addr (file_read 512 (file_rest 4 data)))
    | Raise e => (Raise e, d)
    end.
Proof.
  funelim (import_records data d);
    match goal with E : struct_unpack_I _ = _ |- _ => rewrite E end;
    reflexivity.
Qed.

Lemma import_records_record n v rest acc :
  0 <= n < 2 ^ 32 -> length v = 512%nat ->
  import_records (record_bytes (Int n, v) ++ rest) acc
  = import_records rest (dict_set acc (Tuple [n]) v).
Proof.
  intros Hn Hv. rewrite import_records_step.
  unfold record_bytes, struct_pack_I. cbn [fst snd].
  destruct ((0 <=? n) && (n <? 2 ^ 32)) eqn:E.
  2:{ apply andb_false_iff in E. destruct E as [E|E];
      [apply Z.leb_gt in E|apply Z.ltb_ge in E]; lia. }
  assert (Hr4 : file_read 4 ((big_endian 4 n ++ v) ++ rest) = big_endian 4 n).
  { unfold file_read. rewrite <- app_assoc.
    rewrite firstn_app, big_endian_length, Nat.sub_diag, firstn_O, app_nil_r.
    apply firstn_all2. rewrite big_endian_length. lia. }
  assert (Hs4 : file_rest 4 ((big_endian 4 n ++ v) ++ rest) = v ++ rest).
  { unfold file_rest. rewrite <- app_assoc.
    rewrite skipn_app, big_endian_length, Nat.sub_diag.
    rewrite skipn_all2 by (rewrite big_endian_length; lia). reflexivity. }
  rewrite Hr4, Hs4. unfold struct_unpack_I.
  rewrite big_endian_length. cbn [Nat.eqb].
  rewrite from_bytes_big_endian by (change (256 ^ Z.of_nat 4) with (2 ^ 32); lia).
  assert (Hr : file_read 512 (v ++ rest) = v).
  { unfold file_read. rewrite firstn_app, Hv, Nat.sub_diag, firstn_O, app_nil_r.
    apply firstn_all2. lia. }
  assert (Hs : file_rest 512 (v ++ rest) = rest).
  { unfold file_rest. rewrite skipn_app, Hv, Nat.sub_diag.
    rewrite skipn_all2 by lia. reflexivity. }
  rewrite Hr, Hs. reflexivity.
Qed.

Lemma import_records_serialized d : forall acc,
  Forall well_formed_entry d ->
  import_records (serialized d) acc = (Raise struct_error, imported d acc).
Proof.
  induction d as [|[k v] d IH]; intros acc Hwf.
  - rewrite import_records_step. reflexivity.
  - inversion Hwf as [|? ? (n & Hk & Hn & Hv) Hd]; subst. cbn [fst snd] in *.
    subst k. unfold serialized. cbn [map concat].
    rewrite import_records_record by assumption.
    fold (serialized d). rewrite IH by exact Hd. reflexivity.
Qed.

Lemma imported_get_Int d : forall acc n,
  dict_get (imported d acc) (Int n) = dict_get acc (Int n).
Proof.
  induction d as [|[k v] d IH]; intros acc n; [reflexivity|].
  unfold imported in *. cbn [fold_left fst snd]. rewrite IH.
  apply dict_get_set_other. destruct k; reflexivity.
Qed.

Lemma export_dict_loop path items : forall w old,
  fs w path = Some old ->
  Forall well_formed_entry items ->
  exists w',
    for_each items
      (fun '(k, v) =>
         packed <~ lift (struct_pack_I k) ;;
         _ <~ file_write path packed ;;
         file_write path v) w
    = (Ok tt, w') /\
    fs w' path = Some (old ++ serialized items) /\
    disk w' = disk w /\ stdout w' = stdout w.
Proof.
  induction items as [|[k v] items IH]; intros w old Hold Hwf.
  - exists w. cbn. rewrite app_nil_r. auto.
  - inversion Hwf as [|? ? (n & Hk & Hn & Hv) Hd]; subst. cbn [fst snd] in *.
    subst k.
    assert (Hp : struct_pack_I (Int n) = Ok (big_endian 4 n)).
    { unfold struct_pack_I.
      destruct ((0 <=? n) && (n <? 2 ^ 32)) eqn:E; [reflexivity|].
      apply andb_false_iff in E. destruct E as [E|E];
        [apply Z.leb_gt in E|apply Z.ltb_ge in E]; lia. }
    cbn [for_each]. unfold bindM at 1 2 3. unfold lift at 1. rewrite Hp.
    unfold file_write at 1. rewrite Hold.
    unfold file_write at 1. rewrite fs_set_file_same.
    set (w1 := set_file path ((old ++ big_endian 4 n) ++ v) _).
    destruct (IH w1 ((old ++ big_endian 4 n) ++ v) (fs_set_file_same _ _ _) Hd)
      as (w' & Hrun & Hfs & Hdisk & Hout).
    exists w'. split; [exact Hrun|]. split; [|split; assumption].
    rewrite Hfs. unfold serialized. cbn [map concat].
    unfold record_bytes at 2. cbn [fst snd]. rewrite Hp.
    rewrite <- !app_assoc. reflexivity.
Qed.

(** On every store of the data model, an export followed by an import into
    an emptied store ends in [struct.error] and leaves the records under
    tuple keys: no integer address is present afterwards. *)
Lemma dictionary_round_trip_general name w :
  Forall well_formed_entry (disk w) ->
  exists w1 w2,
    SDModel.export_as_dictionary name w = (Ok tt, w1) /\
    disk w1 = disk w /\
    fs w1 ("./" ++ name) = Some (serialized (disk w)) /\
    SDModel.import_from_dictionary name (set_disk SDModel.empty_disk w1)
    = (Raise struct_error, w2) /\
    disk w2 = imported (disk w) [] /\
    (forall n, dict_get (disk w2) (Int n) = None).
Proof.
  intros Hwf. set (path := ("./" ++ name)%string).
  destruct (export_dict_loop path (disk w) (set_file path [] w) []
              (fs_set_file_same _ _ _) Hwf) as (w1 & Hrun & Hfs & Hdisk & _).
  cbn [app] in Hfs. cbn [set_file disk] in Hdisk.
  exists w1, (set_disk (imported (disk w) []) (set_disk SDModel.empty_disk w1)).
  split.
  { unfold SDModel.export_as_dictionary, bindM at 1 2, open_wb. fold path.
    cbn [set_file disk dict_items]. exact Hrun. }
  split; [exact Hdisk|]. split; [exact Hfs|]. split.
  { unfold SDModel.import_from_dictionary, bindM, open_rb. fold path.
    cbn [set_disk fs disk]. rewrite Hfs.
    unfold SDModel.empty_disk. rewrite import_records_serialized by exact Hwf.
    reflexivity. }
  split; [reflexivity|].
  intros n. cbn [set_disk disk]. apply imported_get_Int.
Qed.

Lemma dictionary_round_trip_never_restores name w :
  Forall well_formed_entry (disk w) -> disk w <> [] ->
  exists w1 w2,
    SDModel.export_as_dictionary name w = (Ok tt, w1) /\
    SDModel.import_from_dictionary name (set_disk SDModel.empty_disk w1)
    = (Raise struct_error, w2) /\
    ~ same_mapping (disk w2) (disk w).
Proof.
  intros Hwf Hne.
  destruct (dictionary_round_trip_general name w Hwf)
    as (w1 & w2 & He & _ & _ & Hi & _ & Hnone).
  exists w1, w2. split; [exact He|]. split; [exact Hi|].
  intros Hsame. destruct (disk w) as [|[k v] d] eqn:Hd; [congruence|].
  inversion Hwf as [|? ? (n & Hk & _) _]; subst. cbn [fst] in Hk. subst k.
  specialize (Hsame (Int n)). rewrite Hnone in Hsame.
  cbn [dict_get] in Hsame. rewrite key_eqb_refl in Hsame. discriminate.
Qed.

(** C5, on the code.  One block written at address 0, exported, and
    imported into an emptied store: the import ends in [struct.error],
    the store then maps the tuple [(0,)] and not the address 0, and a read
    of address 0 returns zeros where the original store returns the
    block. *)
Theorem dictionary_round_trip_loses_addresses :
  let w := run [WriteBlock (Int 0) AA512; ExportAsDictionary "dic"]
               (initial_world no_files) in
  let fresh := set_disk SDModel.empty_disk w in
  disk w = [(Int 0, AA512)] /\
  fs w "./dic" = Some ([0; 0; 0; 0] ++ AA512) /\
  fst (SDModel.import_from_dictionary "dic" fresh) = Raise struct_error /\
  disk (snd (SDModel.import_from_dictionary "dic" fresh))
  = [(Tuple [0], AA512)] /\
  dict_get (disk (snd (SDModel.import_from_dictionary "dic" fresh))) (Int 0)
  = None /\
  dict_get (disk w) (Int 0) = Some AA512 /\
  fst (SDModel.read_block (Int 0)
         (snd (SDModel.import_from_dictionary "dic" fresh)))
  = Ok (repeat 0 512) /\
  fst (SDModel.read_block (Int 0) w) = Ok AA512 /\
  ~ same_mapping (disk (snd (SDModel.import_from_dictionary "dic" fresh)))
                 (disk w).
Proof.
  intros w fresh.
  assert (Hd : disk (snd (SDModel.import_from_dictionary "dic" fresh))
               = [(Tuple [0], AA512)]) by (vm_compute; reflexivity).
  assert (Hw : disk w = [(Int 0, AA512)]) by (vm_compute; reflexivity).
  repeat split; try (vm_compute; reflexivity).
  intros Hsame. specialize (Hsame (Int 0)). rewrite Hd, Hw in Hsame.
  discriminate Hsame.
Qed.

(** ** bitarray: bytes in, the same bytes out *)

Lemma bits_value_byte_bits b : is_byte b -> bits_value (byte_bits b) = b.
Proof.
  intros [Hlo Hhi].
  assert (Hall : forallb (fun n => bits_value (byte_bits (Z.of_nat n)) =? Z.of_nat n)
                         (seq 0 256) = true) by (vm_compute; reflexivity).
  rewrite forallb_forall in Hall.
  specialize (Hall (Z.to_nat b)). rewrite Z2Nat.id in Hall by lia.
  apply Z.eqb_eq, Hall, in_seq. lia.
Qed.

Lemma tobytes_frombytes bs : is_bytes bs -> tobytes (frombytes bs) = bs.
Proof.
  induction 1 as [|b bs Hb _ IH]; [reflexivity|].
  unfold frombytes in *. cbn [flat_map].
  change (byte_bits b ++ flat_map byte_bits bs)
    with (Z.testbit b 7 :: Z.testbit b 6 :: Z.testbit b 5 :: Z.testbit b 4
          :: Z.testbit b 3 :: Z.testbit b 2 :: Z.testbit b 1 :: Z.testbit b 0
          :: flat_map byte_bits bs).
  cbn [tobytes]. rewrite IH. f_equal.
  exact (bits_value_byte_bits b Hb).
Qed.

(** * Further properties of the block store *)

(** ** Writes, the block list and the block count *)

Lemma dict_contains_In d k : dict_contains d k = true <-> In k (dict_keys d).
Proof.
  unfold dict_contains. induction d as [|[k' v'] d IH]; simpl.
  - split; [discriminate|intros []].
  - destruct (key_eqb k k') eqn:E.
    + apply key_eqb_eq in E. subst. split; auto.
    + apply key_eqb_neq in E. rewrite IH. split; [auto|].
      intros [H|H]; [congruence|exact H].
Qed.

Lemma dict_keys_set d k v :
  dict_keys (dict_set d k v)
  = if dict_contains d k then dict_keys d else dict_keys d ++ [k].
Proof.
  unfold dict_contains, dict_keys. induction d as [|[k' v'] d IH]; simpl.
  - reflexivity.
  - destruct (key_eqb k k') eqn:E; simpl; [reflexivity|].
    rewrite IH. destruct (dict_get d k); reflexivity.
Qed.

Lemma dict_set_fresh d k v :
  dict_contains d k = false -> dict_set d k v = d ++ [(k, v)].
Proof.
  unfold dict_contains. induction d as [|[k' v'] d IH]; simpl; intros H.
  - reflexivity.
  - destruct (key_eqb k k'); [discriminate|]. rewrite IH by exact H.
    reflexivity.
Qed.

Lemma dict_set_set d k v v' : dict_set (dict_set d k v) k v' = dict_set d k v'.
Proof.
  induction d as [|[k' v0] d IH]; simpl.
  - rewrite key_eqb_refl. reflexivity.
  - destruct (key_eqb k k') eqn:E; simpl; rewrite E; [reflexivity|].
    rewrite IH. reflexivity.
Qed.

Lemma dict_keys_set_NoDup d k v :
  NoDup (dict_keys d) -> NoDup (dict_keys (dict_set d k v)).
Proof.
  intros H. rewrite dict_keys_set.
  destruct (dict_contains d k) eqn:E; [exact H|].
  apply NoDup_app; [exact H|repeat constructor; intros []|].
  intros x Hx [Hk|[]]. subst x. apply dict_contains_In in Hx. congruence.
Qed.

(** X1. [write_block] at an address that is absent adds it at the end of
    the block list and raises the block count by one; at an address that
    is present it leaves the list and the count as they were.  Either way
    the reads of the other addresses, the files and the output stay. *)
Theorem write_block_block_list (addr other : key) (content : bytes) (w : world) :
  other <> addr ->
  exists keys,
    fst (SDModel.get_block_list w) = Ok keys /\
    fst (SDModel.get_block_count w) = Ok (Z.of_nat (length keys)) /\
    fst (SDModel.get_block_list (snd (SDModel.write_block addr content w)))
    = Ok (if dict_contains (disk w) addr then keys else keys ++ [addr]) /\
    fst (SDModel.get_block_count (snd (SDModel.write_block addr content w)))
    = Ok (if dict_contains (disk w) addr then Z.of_nat (length keys)
          else Z.of_nat (length keys) + 1) /\
    fst (SDModel.read_block other (snd (SDModel.write_block addr content w)))
    = fst (SDModel.read_block other w) /\
    fs (snd (SDModel.write_block addr content w)) = fs w /\
    stdout (snd (SDModel.write_block addr content w)) = stdout w.
Proof.
  intros Hne. exists (dict_keys (disk w)).
  rewrite !get_block_list_spec, !read_block_spec.
  cbn [fst snd SDModel.write_block SDModel.get_block_count set_disk disk fs stdout].
  rewrite dict_keys_set. unfold stored_or_zeros.
  rewrite dict_get_set_other
    by (apply key_eqb_neq; intros E; apply Hne; symmetry; exact E).
  repeat split; try reflexivity.
  destruct (dict_contains (disk w) addr); [reflexivity|].
  rewrite length_app. cbn [length]. do 2 f_equal. lia.
Qed.

Lemma write_block_block_list_witness :
  let w := exec (WriteBlock (Int 5) AA512) (initial_world no_files) in
  exists keys,
    fst (SDModel.get_block_list w) = Ok keys /\
    fst (SDModel.get_block_list (snd (SDModel.write_block (Int 7) BB512 w)))
    = Ok (keys ++ [Int 7]) /\
    fst (SDModel.get_block_count (snd (SDModel.write_block (Int 7) BB512 w)))
    = Ok 2.
Proof.
  intros w.
  destruct (write_block_block_list (Int 7) (Int 5) BB512 w
              ltac:(discriminate))
    as (keys & Hl & Hc & Hl' & Hc' & _).
  exists keys. split; [exact Hl|]. split; [exact Hl'|].
  rewrite Hc'. rewrite get_block_list_spec in Hl. inversion Hl. reflexivity.
Defined.

Lemma import_records_NoDup data d :
  NoDup (dict_keys d) -> NoDup (dict_keys (snd (import_records data d))).
Proof.
  funelim (import_records data d); intros Hnd.
  - match goal with IH : NoDup _ -> NoDup _ |- _ => apply IH end.
    apply dict_keys_set_NoDup. exact Hnd.
  - exact Hnd.
Qed.

Lemma exec_NoDup o w :
  NoDup (dict_keys (disk w)) -> NoDup (dict_keys (disk (exec o w))).
Proof.
  intros H. destruct o;
    try (rewrite exec_keeps_disk by reflexivity; exact H).
  - cbn [exec SDModel.write_block snd set_disk disk].
    apply dict_keys_set_NoDup. exact H.
  - cbn [exec]. unfold SDModel.import_from_dictionary, bindM, open_rb.
    destruct (fs w ("./" ++ name)%string) as [data|]; [|exact H].
    pose proof (import_records_NoDup data (disk w) H) as Hi.
    destruct (import_records data (disk w)) as [r d]. exact Hi.
Qed.

Lemma run_NoDup ops : forall w,
  NoDup (dict_keys (disk w)) -> NoDup (dict_keys (disk (run ops w))).
Proof.
  induction ops as [|o ops IH]; intros w H; [exact H|].
  cbn [run fold_left]. apply IH, exec_NoDup, H.
Qed.

(** X2. Whatever calls were issued since the class was defined, the block
    list holds no address twice, it holds exactly the keys that are in the
    store, and the block count is its length: the count is the number of
    distinct keys written or imported. *)
Theorem block_list_has_no_duplicates
        (ops : list op) (files : string -> option bytes) :
  exists keys,
    fst (SDModel.get_block_list (run ops (initial_world files))) = Ok keys /\
    NoDup keys /\
    fst (SDModel.get_block_count (run ops (initial_world files)))
    = Ok (Z.of_nat (length keys)) /\
    (forall k, In k keys <->
               dict_contains (disk (run ops (initial_world files))) k = true).
Proof.
  exists (dict_keys (disk (run ops (initial_world files)))).
  rewrite get_block_list_spec. split; [reflexivity|].
  split; [apply run_NoDup; constructor|].
  split; [reflexivity|].
  intros k. symmetry. apply dict_contains_In.
Qed.

(** X3. Two writes at one address leave the store as the second alone
    does; two writes at different addresses give the same mapping in
    either order (the order of the block list may differ). *)
Theorem write_block_twice_and_swapped
        (a b : key) (x y : bytes) (w : world) :
  a <> b ->
  disk (run [WriteBlock a x; WriteBlock a y] w)
  = disk (run [WriteBlock a y] w) /\
  same_mapping (disk (run [WriteBlock a x; WriteBlock b y] w))
               (disk (run [WriteBlock b y; WriteBlock a x] w)).
Proof.
  intros Hab.
  cbn [run fold_left exec SDModel.write_block snd set_disk disk].
  split; [apply dict_set_set|].
  intros k.
  destruct (key_eqb a k) eqn:Ea; destruct (key_eqb b k) eqn:Eb.
  - apply key_eqb_eq in Ea, Eb. congruence.
  - apply key_eqb_eq in Ea. subst k.
    rewrite (dict_get_set_other _ b) by exact Eb.
    rewrite !dict_get_set_same. reflexivity.
  - apply key_eqb_eq in Eb. subst k.
    rewrite (dict_get_set_other _ a) by exact Ea.
    rewrite !dict_get_set_same. reflexivity.
  - rewrite !dict_get_set_other by assumption. reflexivity.
Qed.

Lemma write_block_twice_and_swapped_witness :
  let w := initial_world no_files in
  disk (run [WriteBlock (Int 1) AA512; WriteBlock (Int 1) BB512] w)
  = disk (run [WriteBlock (Int 1) BB512] w) /\
  same_mapping (disk (run [WriteBlock (Int 1) AA512; WriteBlock (Int 2) BB512] w))
               (disk (run [WriteBlock (Int 2) BB512; WriteBlock (Int 1) AA512] w)).
Proof.
  intros w.
  apply (write_block_twice_and_swapped (Int 1) (Int 2) AA512 BB512 w).
  discriminate.
Defined.

(** ** import_from_dictionary: how it ends and what it stores *)

Lemma import_records_empty acc : import_records [] acc = (Raise struct_error, acc).
Proof. rewrite import_records_step. reflexivity. Qed.

Lemma import_records_short_address tail acc :
  (length tail < 4)%nat -> import_records tail acc = (Raise struct_error, acc).
Proof.
  intros H. rewrite import_records_step. unfold struct_unpack_I, file_read.
  rewrite length_firstn.
  destruct (Nat.min 4 (length tail) =? 4)%nat eqn:E; [|reflexivity].
  apply Nat.eqb_eq in E. lia.
Qed.

Lemma import_records_last_record a_bytes content acc :
  length a_bytes = 4%nat -> (length content <= 512)%nat ->
  import_records (a_bytes ++ content) acc
  = (Raise struct_error, dict_set acc (Tuple [from_bytes a_bytes]) content).
Proof.
  intros Ha Hc. rewrite import_records_step.
  assert (Hr4 : file_read 4 (a_bytes ++ content) = a_bytes).
  { unfold file_read. rewrite firstn_app, Ha, Nat.sub_diag, firstn_O, app_nil_r.
    apply firstn_all2. lia. }
  assert (Hs4 : file_rest 4 (a_bytes ++ content) = content).
  { unfold file_rest. rewrite skipn_app, Ha, Nat.sub_diag.
    rewrite skipn_all2 by lia. reflexivity. }
  rewrite Hr4, Hs4. unfold struct_unpack_I. rewrite Ha. cbn [Nat.eqb].
  assert (Hr : file_read 512 content = content)
    by (unfold file_read; apply firstn_all2; exact Hc).
  assert (Hs : file_rest 512 content = [])
    by (unfold file_rest; apply skipn_all2; exact Hc).
  rewrite Hr, Hs. apply import_records_empty.
Qed.

Lemma import_records_serialized_app d : forall rest acc,
  Forall well_formed_entry d ->
  import_records (serialized d ++ rest) acc
  = import_records rest (imported d acc).
Proof.
  induction d as [|[k v] d IH]; intros rest acc Hwf; [reflexivity|].
  inversion Hwf as [|? ? (n & Hk & Hn & Hv) Hd]; subst. cbn [fst snd] in *.
  subst k. unfold serialized. cbn [map concat]. rewrite <- app_assoc.
  rewrite import_records_record by assumption.
  fold (serialized d). rewrite IH by exact Hd. reflexivity.
Qed.

Lemma file_records_short data :
  (length data < 4)%nat -> file_records data = [].
Proof.
  intros H. unfold file_records.
  rewrite Nat.div_small by lia. reflexivity.
Qed.

Lemma file_records_count_step (data : bytes) :
  (4 <= length data)%nat ->
  ((length data + 512) / 516
   = S ((length (skipn 516 data) + 512) / 516))%nat.
Proof.
  intros H. rewrite length_skipn.
  destruct (Nat.lt_ge_cases (length data) 516) as [Hlt|Hge].
  - replace (length data - 516)%nat with 0%nat by lia.
    rewrite (Nat.div_small (0 + 512) 516) by lia.
    symmetry. apply (Nat.div_unique _ 516 1 (length data + 512 - 516)); lia.
  - replace (length data + 512)%nat
      with ((length data - 516 + 512) + 1 * 516)%nat by lia.
    rewrite Nat.div_add by lia. lia.
Qed.

Lemma file_records_cons data :
  (4 <= length data)%nat ->
  file_records data
  = (Tuple [from_bytes (firstn 4 data)], firstn 512 (skipn 4 data))
    :: file_records (skipn 516 data).
Proof.
  intros H. unfold file_records.
  rewrite (file_records_count_step data H).
  rewrite <- cons_seq, <- seq_shift. cbn [map]. rewrite map_map.
  rewrite Nat.mul_0_r, skipn_O, firstn_firstn, skipn_firstn_comm.
  change (Nat.min 4 516) with 4%nat. change (516 - 4)%nat with 512%nat.
  f_equal. apply map_ext. intros i.
  replace (516 * S i)%nat with (516 * i + 516)%nat by lia.
  rewrite <- skipn_skipn. reflexivity.
Qed.

Lemma import_records_file_records n : forall data d,
  (length data <= n)%nat ->
  import_records data d
  = (Raise struct_error, store_all (file_records data) d).
Proof.
  induction n as [|n IH]; intros data d Hn.
  - rewrite import_records_short_address, file_records_short by lia.
    reflexivity.
  - destruct (Nat.lt_ge_cases (length data) 4) as [Hlt|Hge].
    + rewrite import_records_short_address, file_records_short by lia.
      reflexivity.
    + rewrite import_records_step, file_records_cons by exact Hge.
      unfold struct_unpack_I, file_read, file_rest.
      rewrite length_firstn, Nat.min_l by exact Hge. cbn [Nat.eqb].
      rewrite skipn_skipn. change (512 + 4)%nat with 516%nat.
      rewrite IH by (rewrite length_skipn; lia).
      reflexivity.
Qed.

(** X4. [import_from_dictionary] never returns normally.  When the file
    is missing it raises FileNotFoundError and the state is untouched.
    Otherwise it goes through the whole file, 516 bytes at a time, stores
    every piece that has at least the four address bytes under the tuple
    of that address, in the order of the file, and then raises
    struct.error; what it stored stays in the store. *)
Theorem import_from_dictionary_always_raises (name : string) (w : world) :
  match fs w ("./" ++ name) with
  | None => SDModel.import_from_dictionary name w = (Raise FileNotFoundError, w)
  | Some data =>
      SDModel.import_from_dictionary name w
      = (Raise struct_error,
         set_disk (store_all (file_records data) (disk w)) w) /\
      length (file_records data) = ((length data + 512) / 516)%nat /\
      (forall i, (i < (length data + 512) / 516)%nat ->
         nth i (file_records data) (Tuple [], [])
         = (Tuple [from_bytes (firstn 4 (skipn (516 * i) data))],
            firstn 512 (skipn (516 * i + 4) data)))
  end.
Proof.
  unfold SDModel.import_from_dictionary, bindM, open_rb.
  destruct (fs w ("./" ++ name)%string) as [data|]; [|reflexivity].
  rewrite (import_records_file_records (length data)) by apply Nat.le_refl.
  split; [reflexivity|].
  split; [unfold file_records; rewrite length_map, length_seq; reflexivity|].
  intros i Hi. unfold file_records.
  set (record := fun i =>
         let piece := firstn 516 (skipn (516 * i) data) in
         (Tuple [from_bytes (firstn 4 piece)], skipn 4 piece)).
  rewrite (nth_indep _ _ (record O))
    by (rewrite length_map, length_seq; exact Hi).
  rewrite (map_nth record), seq_nth by exact Hi.
  unfold record. cbv zeta. rewrite Nat.add_0_l.
  rewrite firstn_firstn, skipn_firstn_comm, skipn_skipn.
  change (Nat.min 4 516) with 4%nat. change (516 - 4)%nat with 512%nat.
  replace (4 + 516 * i)%nat with (516 * i + 4)%nat by lia.
  reflexivity.
Qed.

Lemma import_from_dictionary_always_raises_witness :
  let file := [0; 0; 0; 1] ++ AA512 ++ [0; 0; 1; 2; 7] ++ [9; 9] in
  let w := mkWorld [(Int 1, BB512)]
                   (fun p => if String.eqb p "./dic" then Some file else None)
                   EmptyString in
  file_records (file ++ repeat 0 507 ++ [5; 5; 5])
  = [(Tuple [1], AA512); (Tuple [258], [7; 9; 9] ++ repeat 0 507 ++ [5; 5])] /\
  SDModel.import_from_dictionary "dic" w
  = (Raise struct_error,
     set_disk [(Int 1, BB512); (Tuple [1], AA512); (Tuple [258], [7; 9; 9])] w).
Proof.
  intros file w. split; [vm_compute; reflexivity|].
  exact (proj1 (import_from_dictionary_always_raises "dic" w)).
Defined.

(** X5. The end of the file is not checked.  After the complete records, a
    last record cut short, four address bytes and fewer than 512 bytes of
    content (none at all included), is stored as a block of that shorter
    length; fewer than four bytes left over are dropped. *)
Theorem import_from_dictionary_short_last_record
        (name : string) (w : world) (d : dict)
        (a_bytes content tail : bytes) :
  Forall well_formed_entry d ->
  length a_bytes = 4%nat ->
  (length content < 512)%nat ->
  (length tail < 4)%nat ->
  (fs w ("./" ++ name) = Some (serialized d ++ a_bytes ++ content) ->
   SDModel.import_from_dictionary name w
   = (Raise struct_error,
      set_disk (dict_set (imported d (disk w))
                         (Tuple [from_bytes a_bytes]) content) w)) /\
  (fs w ("./" ++ name) = Some (serialized d ++ tail) ->
   SDModel.import_from_dictionary name w
   = (Raise struct_error, set_disk (imported d (disk w)) w)).
Proof.
  intros Hwf Ha Hc Ht.
  split; intros Hfs;
    unfold SDModel.import_from_dictionary, bindM, open_rb; rewrite Hfs;
    rewrite import_records_serialized_app by exact Hwf.
  - rewrite import_records_last_record by (try assumption; lia). reflexivity.
  - rewrite import_records_short_address by exact Ht. reflexivity.
Qed.

Lemma import_from_dictionary_short_last_record_witness :
  let file := serialized [(Int 1, AA512)] ++ [0; 0; 0; 2] ++ [7; 7; 7] in
  let w := mkWorld [] (fun p => if String.eqb p "./dic" then Some file else None)
                   EmptyString in
  SDModel.import_from_dictionary "dic" w
  = (Raise struct_error,
     set_disk [(Tuple [1], AA512); (Tuple [2], [7; 7; 7])] w).
Proof.
  intros file w.
  refine (proj1 (import_from_dictionary_short_last_record
                   "dic" w [(Int 1, AA512)] [0; 0; 0; 2] [7; 7; 7] []
                   _ eq_refl _ _) eq_refl).
  - repeat constructor. exists 1. repeat split; reflexivity || discriminate.
  - simpl; lia.
  - simpl; lia.
Defined.

(** X6. An import leaves what the integer addresses map to, the files and
    the output as they were: it only adds or replaces entries under tuple
    keys. *)
Theorem import_from_dictionary_keeps_integer_addresses
        (name : string) (w : world) (n : Z) :
  fst (SDModel.read_block (Int n) (snd (SDModel.import_from_dictionary name w)))
  = fst (SDModel.read_block (Int n) w) /\
  dict_contains (disk (snd (SDModel.import_from_dictionary name w))) (Int n)
  = dict_contains (disk w) (Int n) /\
  fs (snd (SDModel.import_from_dictionary name w)) = fs w /\
  stdout (snd (SDModel.import_from_dictionary name w)) = stdout w.
Proof.
  rewrite !read_block_spec. unfold stored_or_zeros, dict_contains.
  rewrite import_from_dictionary_get_Int.
  split; [reflexivity|]. split; [reflexivity|].
  unfold SDModel.import_from_dictionary, bindM, open_rb.
  destruct (fs w ("./" ++ name)%string) as [data|]; [|auto].
  destruct (import_records data (disk w)) as [r d]. auto.
Qed.

(** ** The exports: what they write, when they fail, what they leave *)

Lemma only_file_refl path w : only_file path w w.
Proof. split; auto. Qed.

Lemma only_file_trans path w1 w2 w3 :
  only_file path w1 w2 -> only_file path w2 w3 -> only_file path w1 w3.
Proof.
  intros [Ho1 Hf1] [Ho2 Hf2]. split; [congruence|].
  intros p Hp. rewrite Hf2, Hf1 by exact Hp. reflexivity.
Qed.

Lemma only_file_set_file path content w : only_file path w (set_file path content w).
Proof.
  split; [reflexivity|]. intros p Hp. cbn [set_file fs].
  destruct (String.eqb p path) eqn:E; [|reflexivity].
  apply String.eqb_eq in E. contradiction.
Qed.

Lemma file_write_spec path data w old :
  fs w path = Some old ->
  file_write path data w = (Ok tt, set_file path (old ++ data) w).
Proof. intros H. unfold file_write. rewrite H. reflexivity. Qed.

Lemma struct_pack_I_addressable k v :
  addressable (k, v) -> exists n, k = Int n /\ struct_pack_I k = Ok (big_endian 4 n).
Proof.
  intros (n & Hk & Hn). cbn [fst] in Hk. subst k. exists n. split; [reflexivity|].
  unfold struct_pack_I.
  destruct ((0 <=? n) && (n <? 2 ^ 32)) eqn:E; [reflexivity|].
  apply andb_false_iff in E. destruct E as [E|E];
    [apply Z.leb_gt in E|apply Z.ltb_ge in E]; lia.
Qed.

Lemma export_records_ok path items : forall w old,
  fs w path = Some old ->
  Forall addressable items ->
  exists w',
    for_each items
      (fun '(k, v) =>
         packed <~ lift (struct_pack_I k) ;;
         _ <~ file_write path packed ;;
         file_write path v) w
    = (Ok tt, w') /\
    fs w' path = Some (old ++ serialized items) /\
    disk w' = disk w /\ only_file path w w'.
Proof.
  induction items as [|[k v] items IH]; intros w old Hold Hok.
  - exists w. cbn. rewrite app_nil_r. auto using only_file_refl.
  - inversion Hok as [|? ? Hkv Hrest]; subst.
    destruct (struct_pack_I_addressable k v Hkv) as (n & -> & Hp).
    cbn [for_each]. unfold bindM at 1 2 3. unfold lift at 1. rewrite Hp.
    rewrite (file_write_spec _ _ _ old Hold).
    rewrite (file_write_spec _ _ _ _ (fs_set_file_same _ _ _)).
    set (w1 := set_file path ((old ++ big_endian 4 n) ++ v) _).
    destruct (IH w1 ((old ++ big_endian 4 n) ++ v) (fs_set_file_same _ _ _) Hrest)
      as (w' & Hrun & Hfs & Hdisk & Hframe).
    exists w'. split; [exact Hrun|]. split; [|split].
    + rewrite Hfs. unfold serialized. cbn [map concat].
      unfold record_bytes at 2. cbn [fst snd]. rewrite Hp.
      rewrite <- !app_assoc. reflexivity.
    + exact Hdisk.
    + eapply only_file_trans; [|exact Hframe].
      eapply only_file_trans; apply only_file_set_file.
Qed.

Lemma export_records_raise path pre k v post : forall w old,
  fs w path = Some old ->
  Forall addressable pre ->
  struct_pack_I k = Raise struct_error ->
  exists w',
    for_each (pre ++ (k, v) :: post)
      (fun '(k, v) =>
         packed <~ lift (struct_pack_I k) ;;
         _ <~ file_write path packed ;;
         file_write path v) w
    = (Raise struct_error, w') /\
    fs w' path = Some (old ++ serialized pre) /\
    disk w' = disk w /\ only_file path w w'.
Proof.
  induction pre as [|[k0 v0] pre IH]; intros w old Hold Hok Hbad.
  - exists w. cbn [app for_each]. unfold bindM at 1 2. unfold lift at 1.
    rewrite Hbad. cbn. rewrite app_nil_r. auto using only_file_refl.
  - inversion Hok as [|? ? Hkv Hrest]; subst.
    destruct (struct_pack_I_addressable k0 v0 Hkv) as (n & -> & Hp).
    cbn [app for_each]. unfold bindM at 1 2 3. unfold lift at 1. rewrite Hp.
    rewrite (file_write_spec _ _ _ old Hold).
    rewrite (file_write_spec _ _ _ _ (fs_set_file_same _ _ _)).
    set (w1 := set_file path ((old ++ big_endian 4 n) ++ v0) _).
    destruct (IH w1 ((old ++ big_endian 4 n) ++ v0) (fs_set_file_same _ _ _)
                 Hrest Hbad) as (w' & Hrun & Hfs & Hdisk & Hframe).
    exists w'. split; [exact Hrun|]. split; [|split].
    + rewrite Hfs. unfold serialized. cbn [map concat].
      unfold record_bytes at 2. cbn [fst snd]. rewrite Hp.
      rewrite <- !app_assoc. reflexivity.
    + exact Hdisk.
    + eapply only_file_trans; [|exact Hframe].
      eapply only_file_trans; apply only_file_set_file.
Qed.

Lemma export_as_dictionary_raise_first name w k v d :
  disk w = (k, v) :: d ->
  struct_pack_I k = Raise struct_error ->
  exists w',
    SDModel.export_as_dictionary name w = (Raise struct_error, w') /\
    fs w' ("./" ++ name) = Some [].
Proof.
  intros Hd Hbad. set (path := ("./" ++ name)%string).
  destruct (export_records_raise path [] k v d (set_file path [] w) []
              (fs_set_file_same _ _ _) (Forall_nil _) Hbad)
    as (w' & Hrun & Hfs & _).
  exists w'. split; [|exact Hfs].
  unfold SDModel.export_as_dictionary, bindM at 1 2, open_wb. fold path.
  cbn [set_file disk dict_items]. rewrite Hd. exact Hrun.
Qed.

Lemma serialized_length d :
  Forall addressable d ->
  length (serialized d) = list_sum (map (fun kv => 4 + length (snd kv))%nat d).
Proof.
  induction 1 as [|[k v] d Hkv _ IH]; [reflexivity|].
  destruct (struct_pack_I_addressable k v Hkv) as (n & -> & Hp).
  unfold serialized in *. cbn [map concat list_sum snd].
  rewrite length_app, IH. unfold record_bytes. cbn [fst snd]. rewrite Hp.
  rewrite length_app, big_endian_length. reflexivity.
Qed.

(** X7. When every address is an integer in [0, 2^32),
    [export_as_dictionary] returns and the file holds, for each entry in
    the order of the block list, the four big-endian bytes of the address
    and then the block as it is, whatever its length: no count, no
    separator.  The store, the output and the other files stay. *)
Theorem export_as_dictionary_format (name : string) (w : world) :
  Forall addressable (disk w) ->
  exists w',
    SDModel.export_as_dictionary name w = (Ok tt, w') /\
    fs w' ("./" ++ name)
    = Some (concat (map (fun kv : key * bytes =>
                           match fst kv with
                           | Int n => big_endian 4 n ++ snd kv
                           | Tuple _ => []
                           end) (disk w))) /\
    length (serialized (disk w))
    = list_sum (map (fun kv => 4 + length (snd kv))%nat (disk w)) /\
    disk w' = disk w /\
    only_file ("./" ++ name) w w'.
Proof.
  intros Hok. set (path := ("./" ++ name)%string).
  destruct (export_records_ok path (disk w) (set_file path [] w) []
              (fs_set_file_same _ _ _) Hok) as (w' & Hrun & Hfs & Hdisk & Hframe).
  exists w'. split.
  { unfold SDModel.export_as_dictionary, bindM at 1 2, open_wb. fold path.
    cbn [set_file disk dict_items]. exact Hrun. }
  split.
  { rewrite Hfs. cbn [app]. f_equal. unfold serialized. f_equal.
    apply map_ext_in. intros [k v] Hin. rewrite Forall_forall in Hok.
    destruct (struct_pack_I_addressable k v (Hok _ Hin)) as (n & -> & Hp).
    unfold record_bytes. cbn [fst snd]. rewrite Hp. reflexivity. }
  split; [apply serialized_length; exact Hok|].
  split; [exact Hdisk|].
  eapply only_file_trans; [apply only_file_set_file|exact Hframe].
Qed.

Lemma export_as_dictionary_format_witness :
  let w := run [WriteBlock (Int 258) [1; 2; 3]; WriteBlock (Int 0) AA512]
               (initial_world no_files) in
  exists w',
    SDModel.export_as_dictionary "dic" w = (Ok tt, w') /\
    fs w' "./dic" = Some ([0; 0; 1; 2] ++ [1; 2; 3] ++ [0; 0; 0; 0] ++ AA512).
Proof.
  intros w.
  destruct (export_as_dictionary_format "dic" w) as (w' & Hrun & Hfs & _).
  { repeat constructor; [exists 258|exists 0];
      (split; [reflexivity|split; [discriminate|reflexivity]]). }
  exists w'. split; [exact Hrun|exact Hfs].
Defined.

(** X8. At the first entry whose key [struct.pack] refuses, a negative
    address, one of 2^32 or more, or a tuple, [export_as_dictionary] raises
    struct.error; the file then holds the records of the entries before it
    and nothing of the rest. *)
Theorem export_as_dictionary_stops_at_bad_address
        (name : string) (w : world) (pre post : dict) (k : key) (v : bytes) :
  disk w = pre ++ (k, v) :: post ->
  Forall addressable pre ->
  match k with
  | Int n => n < 0 \/ 2 ^ 32 <= n
  | Tuple _ => True
  end ->
  exists w',
    SDModel.export_as_dictionary name w = (Raise struct_error, w') /\
    fs w' ("./" ++ name) = Some (serialized pre) /\
    disk w' = disk w /\
    only_file ("./" ++ name) w w'.
Proof.
  intros Hd Hok Hk. set (path := ("./" ++ name)%string).
  assert (Hbad : struct_pack_I k = Raise struct_error).
  { destruct k as [n|ns]; [|reflexivity]. unfold struct_pack_I.
    destruct ((0 <=? n) && (n <? 2 ^ 32)) eqn:E; [|reflexivity].
    apply andb_true_iff in E. destruct E as [E1 E2].
    apply Z.leb_le in E1. apply Z.ltb_lt in E2. lia. }
  destruct (export_records_raise path pre k v post (set_file path [] w) []
              (fs_set_file_same _ _ _) Hok Hbad)
    as (w' & Hrun & Hfs & Hdisk & Hframe).
  exists w'. split.
  { unfold SDModel.export_as_dictionary, bindM at 1 2, open_wb. fold path.
    cbn [set_file disk dict_items]. rewrite Hd. exact Hrun. }
  split; [exact Hfs|]. split; [exact Hdisk|].
  eapply only_file_trans; [apply only_file_set_file|exact Hframe].
Qed.

Lemma export_as_dictionary_stops_at_bad_address_witness :
  let w := run [WriteBlock (Int 1) AA512; WriteBlock (Int (2 ^ 32)) BB512;
                WriteBlock (Int 2) AA512] (initial_world no_files) in
  exists w',
    SDModel.export_as_dictionary "dic" w = (Raise struct_error, w') /\
    fs w' "./dic" = Some ([0; 0; 0; 1] ++ AA512).
Proof.
  intros w.
  destruct (export_as_dictionary_stops_at_bad_address
              "dic" w [(Int 1, AA512)] [(Int 2, AA512)] (Int (2 ^ 32)) BB512
              eq_refl)
    as (w' & Hrun & Hfs & _).
  { repeat constructor. exists 1.
    split; [reflexivity|split; [discriminate|reflexivity]]. }
  { right. discriminate. }
  exists w'. split; [exact Hrun|exact Hfs].
Defined.

Lemma only_file_bindM {A B} path (m : M A) (k : A -> M B) :
  (forall w, only_file path w (snd (m w))) ->
  (forall a w, only_file path w (snd (k a w))) ->
  forall w, only_file path w (snd (bindM m k w)).
Proof.
  intros Hm Hk w. unfold bindM. specialize (Hm w).
  destruct (m w) as [[a|e] w1]; cbn [snd] in *; [|exact Hm].
  eapply only_file_trans; [exact Hm|apply Hk].
Qed.

Lemma only_file_for_each {X} path (l : list X) (body : X -> M unit) :
  (forall x w, only_file path w (snd (body x w))) ->
  forall w, only_file path w (snd (for_each l body w)).
Proof.
  intros Hb. induction l as [|x l IH]; cbn [for_each].
  - intros w. apply only_file_refl.
  - apply only_file_bindM; auto.
Qed.

Lemma only_file_file_write path data w :
  only_file path w (snd (file_write path data w)).
Proof.
  unfold file_write. destruct (fs w path); apply only_file_set_file.
Qed.

Lemma only_file_export_to_file name w :
  only_file ("./" ++ name) w (snd (SDModel.export_to_file name w)).
Proof.
  revert w. unfold SDModel.export_to_file.
  repeat (apply only_file_bindM; [|intros ?]);
    try (intros w; apply only_file_refl).
  - intros w. apply only_file_set_file.
  - apply only_file_for_each. intros i.
    apply only_file_bindM.
    + intros w. rewrite read_block_spec. apply only_file_refl.
    + intros block w. apply only_file_file_write.
Qed.

Lemma only_file_export_as_dictionary name w :
  only_file ("./" ++ name) w (snd (SDModel.export_as_dictionary name w)).
Proof.
  revert w. unfold SDModel.export_as_dictionary.
  repeat (apply only_file_bindM; [|intros ?]);
    try (intros w; apply only_file_refl).
  - intros w. apply only_file_set_file.
  - apply only_file_for_each. intros [k v].
    repeat (apply only_file_bindM; [|intros ?]);
      try (intros w; apply only_file_refl);
      intros w; apply only_file_file_write.
Qed.

(** X9. The exports write no file but their own, [./name], and nothing to
    the output, whether they return or raise; [print_block] and the
    queries write no file at all. *)
Theorem exports_write_only_their_file (name : string) (w : world) :
  only_file ("./" ++ name) w (snd (SDModel.export_to_file name w)) /\
  only_file ("./" ++ name) w (snd (SDModel.export_as_dictionary name w)) /\
  (forall addr, fs (snd (SDModel.print_block addr w)) = fs w) /\
  (forall addr, snd (SDModel.read_block addr w) = w) /\
  snd (SDModel.get_block_count w) = w /\
  snd (SDModel.get_block_list w) = w.
Proof.
  split; [apply only_file_export_to_file|].
  split; [apply only_file_export_as_dictionary|].
  split.
  { intros addr. unfold SDModel.print_block.
    destruct (dict_contains (disk w) addr); [|reflexivity].
    destruct (dict_get (disk w) addr); reflexivity. }
  split; [intros addr; rewrite read_block_spec; reflexivity|].
  split; reflexivity.
Qed.

Lemma index_first_nonempty l : l <> [] -> exists k, index_first l = Ok k.
Proof. destruct l as [|k l]; [congruence|]. exists k. reflexivity. Qed.

Lemma index_last_In l : l <> [] -> exists k, index_last l = Ok k /\ In k l.
Proof.
  induction l as [|k l IH]; intros H; [congruence|].
  destruct l as [|k' l'].
  - exists k. split; [reflexivity|left; reflexivity].
  - destruct (IH ltac:(discriminate)) as (k2 & Hl & Hin).
    exists k2. split; [exact Hl|right; exact Hin].
Qed.

Lemma sorted_keys_nonempty l : l <> [] -> sorted_keys l <> [].
Proof. destruct l; [congruence|]. intros _. apply insert_key_nonempty. Qed.

Lemma export_to_file_tuple_key name w :
  disk w <> [] ->
  forallb is_Int (dict_keys (disk w)) = false ->
  SDModel.export_to_file name w
  = (Raise TypeError, set_file ("./" ++ name) [] w).
Proof.
  intros Hne Hmixed.
  assert (Hkne : dict_keys (disk w) <> []).
  { unfold dict_keys. destruct (disk w); [congruence|discriminate]. }
  unfold SDModel.export_to_file, bindM, open_wb.
  rewrite get_block_list_spec. cbn [set_file disk].
  unfold lift, list_sort. rewrite Hmixed. cbn [orb].
  destruct (forallb (fun k => negb (is_Int k)) (dict_keys (disk w))) eqn:Etup;
    [|reflexivity].
  destruct (index_first_nonempty _ (sorted_keys_nonempty _ Hkne)) as [k1 H1].
  destruct (index_last_In _ (sorted_keys_nonempty _ Hkne)) as (k2 & H2 & Hin).
  rewrite H1, H2.
  apply (proj1 (sorted_keys_In _ _)) in Hin. rewrite forallb_forall in Etup.
  specialize (Etup k2 Hin). destruct k2 as [n|ns]; [discriminate|].
  destruct k1; reflexivity.
Qed.

(** X10. [export_to_file] answers by the keys alone: IndexError on an
    empty store, TypeError as soon as one key is a tuple (as every key an
    import stored is), and otherwise it returns, the blocks of every
    address from the least stored one to the greatest being written in
    ascending order as they are, whatever their lengths.  When it raises, the file
    [./name] has been created or emptied before: an earlier image is
    lost.  The store is as before in all three cases. *)
Theorem export_to_file_outcomes (name : string) (w : world) :
  exists w',
    SDModel.export_to_file name w = (export_to_file_outcome (disk w), w') /\
    disk w' = disk w /\
    match export_to_file_outcome (disk w) with
    | Raise _ => fs w' ("./" ++ name) = Some []
    | Ok _ =>
        exists lo hi,
          In (Int lo) (dict_keys (disk w)) /\
          In (Int hi) (dict_keys (disk w)) /\
          (forall n, In (Int n) (dict_keys (disk w)) -> lo <= n <= hi) /\
          fs w' ("./" ++ name)
          = Some (concat (map (fun n => stored_or_zeros (disk w) (Int n))
                              (range lo (hi + 1))))
    end.
Proof.
  unfold export_to_file_outcome.
  destruct (disk w) as [|kv d] eqn:Hd.
  - exists (set_file ("./" ++ name) [] w).
    rewrite export_to_file_empty by exact Hd.
    split; [reflexivity|]. split; [exact Hd|apply fs_set_file_same].
  - rewrite <- Hd.
    destruct (forallb is_Int (dict_keys (disk w))) eqn:Hall.
    + destruct (export_to_file_spec name w ltac:(congruence) Hall)
        as (lo & hi & w' & Hlo & Hhi & Hb & Hrun & Hfs & Hdisk).
      exists w'. split; [exact Hrun|]. split; [exact Hdisk|].
      exists lo, hi. auto.
    + exists (set_file ("./" ++ name) [] w).
      rewrite export_to_file_tuple_key by congruence.
      split; [reflexivity|]. split; [reflexivity|apply fs_set_file_same].
Qed.

(** ** The round trip through the dictionary file, as it is *)

Lemma well_formed_entry_Int k v :
  well_formed_entry (k, v) -> exists n, k = Int n.
Proof. intros (n & Hk & _). exists n. exact Hk. Qed.

Lemma imported_fresh d : forall acc,
  Forall well_formed_entry d ->
  NoDup (dict_keys d) ->
  (forall k, In k (dict_keys d) -> ~ In (imported_key k) (dict_keys acc)) ->
  imported d acc = acc ++ retupled d.
Proof.
  induction d as [|[k v] d IH]; intros acc Hwf Hnd Hfresh.
  - cbn. rewrite app_nil_r. reflexivity.
  - inversion Hwf as [|? ? Hkv Hd]; subst.
    cbn [dict_keys map fst] in Hnd. inversion Hnd as [|? ? Hnotin Hnd']; subst.
    destruct (well_formed_entry_Int k v Hkv) as [n ->].
    unfold imported. cbn [fold_left fst snd imported_key].
    rewrite dict_set_fresh.
    2:{ destruct (dict_contains acc (Tuple [n])) eqn:E; [|reflexivity].
        apply dict_contains_In in E. exfalso.
        apply (Hfresh (Int n)); [left; reflexivity|exact E]. }
    fold (imported d (acc ++ [(Tuple [n], v)])).
    rewrite IH; [|exact Hd|exact Hnd'|].
    + unfold retupled. cbn [map fst snd imported_key].
      rewrite <- app_assoc. reflexivity.
    + intros k Hk Hin. unfold dict_keys in Hin. rewrite map_app in Hin.
      apply in_app_or in Hin. destruct Hin as [Hin|[Hin|[]]].
      * apply (Hfresh k); [right; exact Hk|exact Hin].
      * cbn [fst] in Hin. rewrite Forall_forall in Hd.
        unfold dict_keys in Hk. apply in_map_iff in Hk.
        destruct Hk as ([k' v'] & Hk' & Hin'). cbn [fst] in Hk'. subst k'.
        destruct (well_formed_entry_Int k v' (Hd _ Hin')) as [m ->].
        cbn [imported_key] in Hin. inversion Hin. subst m.
        apply Hnotin. apply in_map_iff. exists (Int n, v'). auto.
Qed.

Lemma dict_get_retupled d n :
  Forall well_formed_entry d ->
  dict_get (retupled d) (Tuple [n]) = dict_get d (Int n).
Proof.
  induction 1 as [|[k v] d Hkv _ IH]; [reflexivity|].
  destruct (well_formed_entry_Int k v Hkv) as [m ->].
  cbn [retupled map fst snd imported_key dict_get key_eqb list_Z_eqb].
  rewrite andb_true_r. destruct (n =? m); [reflexivity|exact IH].
Qed.

(** X11. What an export followed by an import into an emptied store does
    give, on a store of 32-bit addresses and 512-byte blocks: the import
    ends in struct.error, and the store then holds the same blocks in the
    same order, each under the tuple [(n,)] in place of its address [n].
    A read of that tuple returns what a read of [n] returned before, and
    the block count is the same. *)
Theorem dictionary_round_trip_retuples (name : string) (w : world) :
  Forall well_formed_entry (disk w) ->
  NoDup (dict_keys (disk w)) ->
  exists w1 w2,
    SDModel.export_as_dictionary name w = (Ok tt, w1) /\
    SDModel.import_from_dictionary name (set_disk SDModel.empty_disk w1)
    = (Raise struct_error, w2) /\
    disk w2 = retupled (disk w) /\
    (forall n, fst (SDModel.read_block (Tuple [n]) w2)
               = fst (SDModel.read_block (Int n) w)) /\
    fst (SDModel.get_block_count w2) = fst (SDModel.get_block_count w).
Proof.
  intros Hwf Hnd.
  destruct (dictionary_round_trip_general name w Hwf)
    as (w1 & w2 & He & _ & _ & Hi & Hd & _).
  assert (Hd2 : disk w2 = retupled (disk w)).
  { rewrite Hd. rewrite imported_fresh; auto. }
  exists w1, w2. split; [exact He|]. split; [exact Hi|]. split; [exact Hd2|].
  split.
  - intros n. rewrite !read_block_spec. cbn [fst]. unfold stored_or_zeros.
    rewrite Hd2, dict_get_retupled by exact Hwf. reflexivity.
  - unfold SDModel.get_block_count. cbn [fst]. rewrite Hd2.
    unfold dict_keys, retupled. rewrite !length_map. reflexivity.
Qed.

Lemma dictionary_round_trip_retuples_witness :
  let w := run [WriteBlock (Int 7) AA512; WriteBlock (Int 5) BB512]
               (initial_world no_files) in
  exists w1 w2,
    SDModel.export_as_dictionary "dic" w = (Ok tt, w1) /\
    SDModel.import_from_dictionary "dic" (set_disk SDModel.empty_disk w1)
    = (Raise struct_error, w2) /\
    disk w2 = [(Tuple [7], AA512); (Tuple [5], BB512)].
Proof.
  intros w.
  destruct (dictionary_round_trip_retuples "dic" w)
    as (w1 & w2 & He & Hi & Hd & _).
  { repeat constructor; [exists 7|exists 5];
      (split; [reflexivity|split; [split; discriminate || reflexivity|reflexivity]]). }
  { repeat constructor; simpl; intuition discriminate. }
  exists w1, w2. split; [exact He|]. split; [exact Hi|exact Hd].
Defined.

(** * Further properties of the register encoder *)

Lemma to_bytes_Ok_range v n bs : to_bytes v n = Ok bs -> 0 <= v < 256 ^ Z.of_nat n.
Proof.
  unfold to_bytes. destruct (v <? 0) eqn:E1; [discriminate|].
  destruct (256 ^ Z.of_nat n <=? v) eqn:E2; [discriminate|].
  apply Z.ltb_ge in E1. apply Z.leb_gt in E2. lia.
Qed.

Lemma to_bytes_Raise v n e : to_bytes v n = Raise e -> e = OverflowError.
Proof.
  unfold to_bytes. destruct ((v <? 0) || (256 ^ Z.of_nat n <=? v));
    intros H; inversion H; reflexivity.
Qed.

Lemma bytes_ascii_Raise s e : bytes_ascii s = Raise e -> e = UnicodeEncodeError.
Proof.
  induction s as [|c s IH]; simpl; [discriminate|].
  destruct (128 <=? Z.of_nat (nat_of_ascii c)).
  - intros H. inversion H. reflexivity.
  - destruct (bytes_ascii s); simpl; [discriminate|]. intros H.
    inversion H. subst. apply IH. reflexivity.
Qed.

Lemma Ok_inj {A} (a b : A) : Ok a = Ok b -> a = b.
Proof. intros H. injection H. auto. Qed.

(** X12. [compute_CID] returns exactly when MID and PRV fit one byte, OID
    two, PSN four, PNM is ASCII, and the combined [(RSV << 3) | MDT] fits
    two bytes; RSV and MDT are not checked one by one, and the length of
    PNM not at all.  Otherwise it raises OverflowError or
    UnicodeEncodeError. *)
Theorem compute_CID_returns_iff (MID OID : Z) (PNM : string) (PRV PSN RSV MDT : Z) :
  ((exists CID, compute_CID MID OID PNM PRV PSN RSV MDT = Ok CID) <->
   (0 <= MID < 256 /\ 0 <= OID < 65536 /\
    (exists pnm, bytes_ascii PNM = Ok pnm) /\
    0 <= PRV < 256 /\ 0 <= PSN < 2 ^ 32 /\
    0 <= Z.lor (Z.shiftl RSV 3) MDT < 65536)) /\
  (forall e, compute_CID MID OID PNM PRV PSN RSV MDT = Raise e ->
             e = OverflowError \/ e = UnicodeEncodeError).
Proof.
  unfold compute_CID, partial_CID. cbv zeta.
  destruct (to_bytes MID 1) as [mid|e1] eqn:E1.
  2:{ split; [split|].
      - intros [CID H]. discriminate H.
      - intros (H & _). rewrite to_bytes_ok in E1 by exact H. discriminate.
      - cbn [bind]. intros e H. inversion H. subst.
        left. exact (to_bytes_Raise _ _ _ E1). }
  destruct (to_bytes OID 2) as [oid|e2] eqn:E2.
  2:{ split; [split|].
      - intros [CID H]. discriminate H.
      - intros (_ & H & _). rewrite to_bytes_ok in E2 by exact H. discriminate.
      - cbn [bind]. intros e H. inversion H. subst.
        left. exact (to_bytes_Raise _ _ _ E2). }
  destruct (bytes_ascii PNM) as [pnm|e3] eqn:E3.
  2:{ split; [split|].
      - intros [CID H]. discriminate H.
      - intros (_ & _ & [pnm H] & _). discriminate H.
      - cbn [bind]. intros e H. inversion H. subst.
        right. exact (bytes_ascii_Raise _ _ E3). }
  destruct (to_bytes PRV 1) as [prv|e4] eqn:E4.
  2:{ split; [split|].
      - intros [CID H]. discriminate H.
      - intros (_ & _ & _ & H & _). rewrite to_bytes_ok in E4 by exact H.
        discriminate.
      - cbn [bind]. intros e H. inversion H. subst.
        left. exact (to_bytes_Raise _ _ _ E4). }
  destruct (to_bytes PSN 4) as [psn|e5] eqn:E5.
  2:{ split; [split|].
      - intros [CID H]. discriminate H.
      - intros (_ & _ & _ & _ & H & _). rewrite to_bytes_ok in E5 by exact H.
        discriminate.
      - cbn [bind]. intros e H. inversion H. subst.
        left. exact (to_bytes_Raise _ _ _ E5). }
  destruct (to_bytes (Z.lor (Z.shiftl RSV 3) MDT) 2) as [rm|e6] eqn:E6.
  2:{ split; [split|].
      - intros [CID H]. discriminate H.
      - intros (_ & _ & _ & _ & _ & H). rewrite to_bytes_ok in E6 by exact H.
        discriminate.
      - cbn [bind]. intros e H. inversion H. subst.
        left. exact (to_bytes_Raise _ _ _ E6). }
  cbn [bind]. rewrite crc_and_last_bit_ok. cbn [bind].
  split; [split|].
  - intros _.
    apply to_bytes_Ok_range in E1, E2, E4, E5, E6.
    repeat split; try (exists pnm; reflexivity); try apply E1; try apply E2;
      try apply E4; try apply E5; try apply E6.
  - intros _. eexists. reflexivity.
  - intros e H. discriminate H.
Qed.

Lemma compute_CID_returns_iff_witness :
  exists CID, compute_CID 0x41 0x3432 "SD card" 0x30 0x12345678 8191 7 = Ok CID.
Proof.
  apply (proj2 (proj1 (compute_CID_returns_iff
                         0x41 0x3432 "SD card" 0x30 0x12345678 8191 7))).
  repeat split; try discriminate; try reflexivity.
  eexists. reflexivity.
Defined.

(** X13. On valid fields with a five-byte PNM, every field is read back
    from the 16 bytes at a fixed place: MID at byte 0, OID at 1-2, PNM at
    3-7, PRV at 8, PSN at 9-12, the combined [(RSV << 3) | MDT] at 13-14,
    all big-endian, and byte 15 is the trailer computed over bytes 0-14. *)
Theorem compute_CID_fields_read_back MID OID PNM PRV PSN RSV MDT pnm CID :
  0 <= MID <= 255 -> 0 <= OID <= 65535 ->
  bytes_ascii PNM = Ok pnm -> length pnm = 5%nat ->
  0 <= PRV <= 255 -> 0 <= PSN < 2 ^ 32 -> 0 <= RSV <= 7 -> 0 <= MDT <= 4095 ->
  compute_CID MID OID PNM PRV PSN RSV MDT = Ok CID ->
  nth 0 CID 0 = MID /\
  from_bytes (firstn 2 (skipn 1 CID)) = OID /\
  firstn 5 (skipn 3 CID) = pnm /\
  nth 8 CID 0 = PRV /\
  from_bytes (firstn 4 (skipn 9 CID)) = PSN /\
  from_bytes (firstn 2 (skipn 13 CID)) = Z.lor (Z.shiftl RSV 3) MDT /\
  crc_and_last_bit (firstn 15 CID) = Ok (skipn 15 CID).
Proof.
  intros HMID HOID HPNM Hlen HPRV HPSN HRSV HMDT Hc.
  pose proof (RSV_MDT_range RSV MDT HRSV HMDT) as HRM.
  rewrite (compute_CID_ok _ _ _ _ _ _ _ pnm) in Hc by assumption.
  cbv zeta in Hc. apply Ok_inj in Hc. subst CID.
  destruct pnm as [|p0 [|p1 [|p2 [|p3 [|p4 [|]]]]]]; try discriminate Hlen.
  set (X := Z.lor (Z.shiftl RSV 3) MDT) in *.
  set (t := 2 * libscrc.crc7 _ + 1).
  change ((big_endian 1 MID ++ big_endian 2 OID ++ [p0; p1; p2; p3; p4]
           ++ big_endian 1 PRV ++ big_endian 4 PSN ++ big_endian 2 X) ++ [t])
    with (big_endian 1 MID ++ big_endian 2 OID ++ [p0; p1; p2; p3; p4]
          ++ big_endian 1 PRV ++ big_endian 4 PSN ++ big_endian 2 X ++ [t]).
  split.
  { change (nth 0 _ 0) with (from_bytes (big_endian 1 MID)) at 1.
    apply from_bytes_big_endian. change (256 ^ Z.of_nat 1) with 256. lia. }
  split.
  { change (firstn 2 (skipn 1 _)) with (big_endian 2 OID).
    apply from_bytes_big_endian. change (256 ^ Z.of_nat 2) with 65536. lia. }
  split; [reflexivity|].
  split.
  { change (nth 8 _ 0) with (from_bytes (big_endian 1 PRV)) at 1.
    apply from_bytes_big_endian. change (256 ^ Z.of_nat 1) with 256. lia. }
  split.
  { change (firstn 4 (skipn 9 _)) with (big_endian 4 PSN).
    apply from_bytes_big_endian. change (256 ^ Z.of_nat 4) with (2 ^ 32). lia. }
  split.
  { change (firstn 2 (skipn 13 _)) with (big_endian 2 X).
    apply from_bytes_big_endian. change (256 ^ Z.of_nat 2) with 65536. lia. }
  change (skipn 15 _) with [t].
  change (firstn 15 _)
    with (big_endian 1 MID ++ big_endian 2 OID ++ [p0; p1; p2; p3; p4]
          ++ big_endian 1 PRV ++ big_endian 4 PSN ++ big_endian 2 X).
  apply crc_and_last_bit_ok.
Qed.

Lemma compute_CID_fields_read_back_witness :
  let CID := [0x41; 0x34; 0x32; 0x53; 0x44; 0x43; 0x49; 0x54; 0x30; 0x12;
              0x34; 0x56; 0x78; 0x01; 0x12; 0x57] in
  nth 0 CID 0 = SDModel.MID /\
  from_bytes (firstn 2 (skipn 1 CID)) = SDModel.OID /\
  firstn 5 (skipn 3 CID) = [83; 68; 67; 73; 84] /\
  nth 8 CID 0 = SDModel.PRV /\
  from_bytes (firstn 4 (skipn 9 CID)) = SDModel.PSN /\
  from_bytes (firstn 2 (skipn 13 CID))
  = Z.lor (Z.shiftl SDModel.RSV 3) SDModel.MDT /\
  crc_and_last_bit (firstn 15 CID) = Ok (skipn 15 CID).
Proof.
  intros CID.
  apply (compute_CID_fields_read_back
           SDModel.MID SDModel.OID SDModel.PNM SDModel.PRV SDModel.PSN
           SDModel.RSV SDModel.MDT [83; 68; 67; 73; 84] CID);
    solve [ reflexivity | vm_compute; split; discriminate
          | vm_compute; split; [discriminate | reflexivity] ].
Defined.

(** ** compute_CSD on fields of any widths *)

Lemma byte_bits_bits_value b7 b6 b5 b4 b3 b2 b1 b0 :
  byte_bits (bits_value [b7; b6; b5; b4; b3; b2; b1; b0])
  = [b7; b6; b5; b4; b3; b2; b1; b0].
Proof. destruct b7, b6, b5, b4, b3, b2, b1, b0; reflexivity. Qed.

Lemma frombytes_tobytes n : forall b : bitarray,
  length b = (8 * n)%nat -> frombytes (tobytes b) = b.
Proof.
  induction n as [|n IH]; intros b Hb.
  - destruct b; [reflexivity|discriminate].
  - destruct b as [|b7 [|b6 [|b5 [|b4 [|b3 [|b2 [|b1 [|b0 rest]]]]]]]];
      try (cbn [length] in Hb; lia).
    cbn [tobytes]. unfold frombytes in *. cbn [flat_map].
    rewrite byte_bits_bits_value, IH by (cbn [length] in Hb; lia).
    reflexivity.
Qed.

Lemma concat_nth_slice {A} (ls : list (list A)) : forall i,
  nth i ls []
  = firstn (length (nth i ls []))
           (skipn (length (concat (firstn i ls))) (concat ls)).
Proof.
  induction ls as [|l ls IH]; intros i.
  - destruct i; reflexivity.
  - destruct i as [|i]; cbn [nth firstn concat].
    + cbn [length skipn]. rewrite firstn_app, Nat.sub_diag, firstn_O, app_nil_r.
      symmetry. apply firstn_all.
    + rewrite length_app, skipn_app.
      rewrite skipn_all2 by lia.
      replace (length l + length (concat (firstn i ls)) - length l)%nat
        with (length (concat (firstn i ls))) by lia.
      cbn [app]. apply IH.
Qed.

(** X14. [compute_CSD] checks no width: on any 29 bit sequences it
    returns, and its value has one byte for every eight bits of their
    total, rounded up, plus the trailer.  So it has 16 bytes exactly when
    the total is between 113 and 120 bits. *)
Theorem compute_CSD_any_widths
        (a1 a2 a3 a4 a5 a6 a7 a8 a9 a10 a11 a12 a13 a14 a15 a16 a17 a18 a19
         a20 a21 a22 a23 a24 a25 a26 a27 a28 a29 : bitarray) :
  let bits := concat [a1; a2; a3; a4; a5; a6; a7; a8; a9; a10; a11; a12;
                      a13; a14; a15; a16; a17; a18; a19; a20; a21; a22;
                      a23; a24; a25; a26; a27; a28; a29] in
  exists CSD,
    compute_CSD a1 a2 a3 a4 a5 a6 a7 a8 a9 a10 a11 a12 a13 a14 a15
                a16 a17 a18 a19 a20 a21 a22 a23 a24 a25 a26 a27 a28 a29
    = Ok CSD /\
    length CSD = ((length bits + 7) / 8 + 1)%nat /\
    (length CSD = 16%nat <-> (113 <= length bits <= 120)%nat).
Proof.
  intros bits.
  exists (tobytes bits ++ [2 * libscrc.crc7 (tobytes bits) + 1]).
  split; [apply compute_CSD_apply_29|].
  rewrite length_app, tobytes_length. cbn [length].
  generalize (length bits). intros n. split; [reflexivity|].
  pose proof (Nat.div_mod_eq (n + 7) 8) as Hdm.
  pose proof (Nat.mod_upper_bound (n + 7) 8 ltac:(lia)) as Hm.
  lia.
Qed.

Lemma compute_CSD_any_widths_witness :
  exists CSD,
    compute_CSD [true] [] [] [] [] [] [] [] [] [] [] [] [] [] [] [] [] [] []
                [] [] [] [] [] [] [] [] [] [false; true]
    = Ok CSD /\
    length CSD = 2%nat.
Proof.
  destruct (compute_CSD_any_widths
              [true] [] [] [] [] [] [] [] [] [] [] [] [] [] [] [] [] [] []
              [] [] [] [] [] [] [] [] [] [false; true])
    as (CSD & Hc & Hl & _).
  exists CSD. split; [exact Hc|exact Hl].
Defined.

(** X15. With fields of the declared widths, the 120 bits are read back
    from the first 15 bytes of the register, most significant bit first,
    and every field is the run of its declared width at the offset given
    by the widths before it. *)
Theorem compute_CSD_fields_read_back
        (a1 a2 a3 a4 a5 a6 a7 a8 a9 a10 a11 a12 a13 a14 a15 a16 a17 a18 a19
         a20 a21 a22 a23 a24 a25 a26 a27 a28 a29 : bitarray) (i : nat) :
  let fields := [a1; a2; a3; a4; a5; a6; a7; a8; a9; a10; a11; a12; a13; a14;
                 a15; a16; a17; a18; a19; a20; a21; a22; a23; a24; a25; a26;
                 a27; a28; a29] in
  map (@length bool) fields = CSD_field_widths ->
  exists CSD,
    compute_CSD a1 a2 a3 a4 a5 a6 a7 a8 a9 a10 a11 a12 a13 a14 a15
                a16 a17 a18 a19 a20 a21 a22 a23 a24 a25 a26 a27 a28 a29
    = Ok CSD /\
    frombytes (firstn 15 CSD) = concat fields /\
    nth i fields []
    = firstn (nth i CSD_field_widths 0%nat)
             (skipn (list_sum (firstn i CSD_field_widths))
                    (frombytes (firstn 15 CSD))).
Proof.
  intros fields Hw.
  assert (H120 : length (concat fields) = (8 * 15)%nat).
  { rewrite length_concat, Hw. reflexivity. }
  exists (tobytes (concat fields)
          ++ [2 * libscrc.crc7 (tobytes (concat fields)) + 1]).
  split; [apply compute_CSD_apply_29|].
  assert (Hbits : frombytes (firstn 15 (tobytes (concat fields)
                    ++ [2 * libscrc.crc7 (tobytes (concat fields)) + 1]))
                  = concat fields).
  { rewrite firstn_app, tobytes_length, H120.
    change ((8 * 15 + 7) / 8)%nat with 15%nat.
    rewrite Nat.sub_diag, firstn_O, app_nil_r.
    rewrite firstn_all2 by (rewrite tobytes_length, H120; apply Nat.le_refl).
    apply (frombytes_tobytes 15). exact H120. }
  split; [exact Hbits|]. rewrite Hbits, <- Hw.
  rewrite firstn_map, <- length_concat.
  change 0%nat with (length (@nil bool)) at 1. rewrite map_nth.
  apply concat_nth_slice.
Qed.

Lemma compute_CSD_fields_read_back_witness :
  exists CSD,
    SDModel.CSD = Ok CSD /\
    SDModel.C_SIZE
    = firstn 22 (skipn 58 (frombytes (firstn 15 CSD))).
Proof.
  destruct (compute_CSD_fields_read_back
              SDModel.CSD_STRUCTURE SDModel.RSV1 SDModel.TAAC SDModel.NSAC
              SDModel.TRANS_SPEED SDModel.CCC SDModel.READ_BL_LEN
              SDModel.READ_BL_PARTIAL SDModel.WRITE_BLK_MISALIGN
              SDModel.READ_BLK_MISALIGN SDModel.DSR_IMP SDModel.RSV2
              SDModel.C_SIZE SDModel.RSV3 SDModel.ERASE_BLK_EN
              SDModel.SECTOR_SIZE SDModel.WP_GRP_SIZE SDModel.WP_GRP_ENABLE
              SDModel.RSV4 SDModel.R2W_FACTOR SDModel.WRITE_BL_LEN
              SDModel.WRITE_BL_LEN2 SDModel.RSV5 SDModel.FILE_FORMAT_GRP
              SDModel.COPY SDModel.PERM_WRITE_PROTECT
              SDModel.TMP_WRITE_PROTECT SDModel.FILE_FORMAT SDModel.RSV6
              12%nat eq_refl)
    as (CSD & Hc & _ & Hf).
  exists CSD. split; [exact Hc|exact Hf].
Defined.

(** X16. A register checks against its own trailer: with the CRC-7 of
    SD/MMC for [libscrc.crc7], the CRC-7 of a payload followed by the
    trailer [crc_and_last_bit] gives it is 0x09, whatever the payload (the
    seven CRC bits cancel the remainder, and the final 1 bit leaves the
    generator). *)
Theorem crc7_of_register_is_9 (payload : bytes) :
  exists trail,
    crc_and_last_bit payload = Ok trail /\
    libscrc.crc7 (payload ++ trail) = 0x09.
Proof.
  exists [2 * libscrc.crc7 payload + 1]. split; [apply crc_and_last_bit_ok|].
  unfold libscrc.crc7 at 1. rewrite fold_left_app. cbn [fold_left].
  fold (libscrc.crc7 payload).
  pose proof (crc7_range payload) as Hr.
  assert (Hall : forallb (fun n => libscrc.crc7_byte (Z.of_nat n)
                                     (2 * Z.of_nat n + 1) =? 9)
                         (seq 0 128) = true) by (vm_compute; reflexivity).
  rewrite forallb_forall in Hall.
  specialize (Hall (Z.to_nat (libscrc.crc7 payload))).
  rewrite Z2Nat.id in Hall by lia.
  apply Z.eqb_eq, Hall, in_seq. lia.
Qed.

(** * print_block: the text it writes *)

Lemma string_app_nil_r (s : string) : (s ++ "")%string = s.
Proof. induction s as [|c s IH]; simpl; congruence. Qed.

Lemma string_app_assoc (s t u : string) :
  ((s ++ t) ++ u)%string = (s ++ (t ++ u))%string.
Proof. induction s as [|c s IH]; simpl; congruence. Qed.

Lemma hex_digit_not_newline n :
  0 <= n < 16 -> Ascii.eqb (hex_digit n) newline = false.
Proof.
  intros Hn.
  assert (Hall : forallb (fun k => negb (Ascii.eqb (hex_digit (Z.of_nat k)) newline))
                         (seq 0 16) = true) by (vm_compute; reflexivity).
  rewrite forallb_forall in Hall.
  specialize (Hall (Z.to_nat n)). rewrite Z2Nat.id in Hall by lia.
  apply negb_true_iff, Hall, in_seq. lia.
Qed.

(** The first substitution: a newline after every 32 digits, that is,
    after every sixteenth byte. *)
Lemma re_sub_32_bytes_hex bs : forall r pending,
  (r <= 15)%nat ->
  re_sub_dots 32 true (String newline EmptyString) pending (S (S (2 * r)))
              (bytes_hex bs)
  = (pending ++ hex_lines (15 - r) bs)%string.
Proof.
  induction bs as [|b bs IH]; intros r pending Hr.
  - cbn. rewrite string_app_nil_r. reflexivity.
  - cbn [bytes_hex re_sub_dots dot_matches orb].
    destruct r as [|r'].
    + cbn [Nat.mul Nat.add re_sub_dots dot_matches orb].
      change 32%nat with (S (S (2 * 15))) at 2.
      rewrite (IH 15%nat EmptyString) by lia.
      cbn [hex_lines Nat.sub Nat.eqb append].
      rewrite !string_app_assoc. reflexivity.
    + replace (2 * S r')%nat with (S (S (2 * r'))) by lia.
      cbn [re_sub_dots dot_matches orb].
      rewrite (IH r') by lia.
      cbn [hex_lines].
      replace (15 - S r' =? 15)%nat with false
        by (symmetry; apply Nat.eqb_neq; lia).
      replace (S (15 - S r')) with (15 - r')%nat by lia.
      rewrite !string_app_assoc. reflexivity.
Qed.

(** The second substitution: a space after every two digits; the newlines
    pass through. *)
Lemma re_sub_2_hex_lines bs : forall col,
  is_bytes bs ->
  re_sub_dots 2 false " " EmptyString 2 (hex_lines col bs) = hex_dump col bs.
Proof.
  induction bs as [|b bs IH]; intros col Hbs; [reflexivity|].
  inversion Hbs as [|? ? Hb Hrest]; subst. unfold is_byte in Hb.
  assert (H1 : Ascii.eqb (hex_digit (b / 16)) newline = false).
  { apply hex_digit_not_newline. split.
    - apply Z.div_pos; lia.
    - apply Z.div_lt_upper_bound; lia. }
  assert (H2 : Ascii.eqb (hex_digit (b mod 16)) newline = false).
  { apply hex_digit_not_newline. apply Z.mod_pos_bound. lia. }
  cbn [hex_lines hex_dump re_sub_dots dot_matches orb].
  rewrite H1. cbn [negb re_sub_dots dot_matches orb append].
  rewrite H2. cbn [negb append]. do 3 f_equal.
  destruct (col =? 15)%nat.
  - cbn [re_sub_dots dot_matches orb]. rewrite Ascii.eqb_refl.
    cbn [negb append]. f_equal. apply IH. exact Hrest.
  - apply IH. exact Hrest.
Qed.

(** X17. [print_block] of a stored block writes it to the output as
    lowercase hexadecimal, a space after every byte and a line break after
    every sixteenth byte, followed by the line break of [print]; of an
    address that is absent it writes the line "This block does not
    exist!".  It returns in both cases, and the store and the files stay. *)
Theorem print_block_output
        (addr missing : key) (block : bytes) (w : world) :
  dict_get (disk w) addr = Some block ->
  is_bytes block ->
  dict_get (disk w) missing = None ->
  SDModel.print_block addr w
  = (Ok tt, mkWorld (disk w) (fs w)
                    (stdout w ++ hex_dump 0 block
                       ++ String newline EmptyString)%string) /\
  SDModel.print_block missing w
  = (Ok tt, mkWorld (disk w) (fs w)
                    (stdout w ++ "This block does not exist!"
                       ++ String newline EmptyString)%string).
Proof.
  intros Hget Hbytes Hmiss. unfold SDModel.print_block, dict_contains.
  rewrite Hget, Hmiss. split; [|reflexivity].
  unfold print, re_sub. do 3 f_equal.
  change 32%nat with (S (S (2 * 15))) at 2.
  rewrite re_sub_32_bytes_hex by lia. cbn [append Nat.sub].
  rewrite re_sub_2_hex_lines by exact Hbytes. reflexivity.
Qed.

Lemma print_block_output_witness :
  let w := exec (WriteBlock (Int 0) (repeat 0xAB 17)) (initial_world no_files) in
  stdout (snd (SDModel.print_block (Int 0) w))
  = ("ab ab ab ab ab ab ab ab ab ab ab ab ab ab ab ab " ++ String newline "ab "
       ++ String newline EmptyString)%string.
Proof.
  intros w.
  destruct (print_block_output (Int 0) (Int 1) (repeat 0xAB 17) w eq_refl)
    as [H _].
  - repeat constructor; unfold is_byte; lia.
  - reflexivity.
  - rewrite H. reflexivity.
Defined.

(** * After an import *)

Lemma dict_set_keeps_head k0 v0 d k v :
  exists v' d', dict_set ((k0, v0) :: d) k v = (k0, v') :: d'.
Proof.
  cbn [dict_set]. destruct (key_eqb k k0); eexists; eexists; reflexivity.
Qed.

Lemma imported_keeps_head d : forall k0 v0 acc,
  exists v' d', imported d ((k0, v0) :: acc) = (k0, v') :: d'.
Proof.
  induction d as [|[k v] d IH]; intros k0 v0 acc.
  - exists v0, acc. reflexivity.
  - unfold imported. cbn [fold_left fst snd].
    destruct (dict_set_keeps_head k0 v0 acc (imported_key k) v) as (v' & d' & ->).
    apply IH.
Qed.

(** X18. A store restored by an import cannot be exported again.  After
    the round trip of a non-empty store of 32-bit addresses and 512-byte
    blocks, [export_as_dictionary] raises struct.error on the first
    entry, leaving its file empty, and [export_to_file] raises TypeError:
    the keys are tuples. *)
Theorem exports_fail_after_import (name name' : string) (w : world) :
  Forall well_formed_entry (disk w) ->
  disk w <> [] ->
  exists w1 w2 w3,
    SDModel.export_as_dictionary name w = (Ok tt, w1) /\
    SDModel.import_from_dictionary name (set_disk SDModel.empty_disk w1)
    = (Raise struct_error, w2) /\
    SDModel.export_as_dictionary name' w2 = (Raise struct_error, w3) /\
    fs w3 ("./" ++ name') = Some [] /\
    fst (SDModel.export_to_file name' w2) = Raise TypeError.
Proof.
  intros Hwf Hne.
  destruct (dictionary_round_trip_general name w Hwf)
    as (w1 & w2 & He & _ & _ & Hi & Hd & _).
  destruct (disk w) as [|[k v] d] eqn:Hdw; [congruence|].
  inversion Hwf as [|? ? Hkv _]; subst.
  destruct (well_formed_entry_Int k v Hkv) as [n ->].
  unfold imported in Hd. cbn [fold_left fst snd imported_key dict_set] in Hd.
  destruct (imported_keeps_head d (Tuple [n]) v []) as (v' & d' & Hhead).
  unfold imported in Hhead. rewrite Hhead in Hd.
  destruct (export_as_dictionary_raise_first name' w2 (Tuple [n]) v' d' Hd eq_refl)
    as (w3 & Hrun & Hfs).
  exists w1, w2, w3. split; [exact He|]. split; [exact Hi|].
  split; [exact Hrun|]. split; [exact Hfs|].
  rewrite export_to_file_tuple_key; [reflexivity| |]; rewrite Hd;
    [discriminate|reflexivity].
Qed.

Lemma exports_fail_after_import_witness :
  let w := exec (WriteBlock (Int 3) AA512) (initial_world no_files) in
  exists w1 w2 w3,
    SDModel.export_as_dictionary "dic" w = (Ok tt, w1) /\
    SDModel.import_from_dictionary "dic" (set_disk SDModel.empty_disk w1)
    = (Raise struct_error, w2) /\
    SDModel.export_as_dictionary "dic2" w2 = (Raise struct_error, w3) /\
    fs w3 "./dic2" = Some [] /\
    fst (SDModel.export_to_file "dic2" w2) = Raise TypeError.
Proof.
  intros w.
  apply (exports_fail_after_import "dic" "dic2" w).
  - repeat constructor. exists 3.
    split; [reflexivity|split; [split; discriminate || reflexivity|reflexivity]].
  - discriminate.
Defined.
